(** * kerkerker: danmaku resolution and playback resilience

    A shallow embedding of [src/lib/player/danmaku-service.ts] (the comment
    catalog client, the comment normaliser, the auto-load fallback chain and
    the [LocalHlsPlayer] component with its streaming error handler), with
    the properties of the specification stated and settled against it.

    Layout:
    - [JS]: the ECMAScript built-ins the source calls (strings as UTF-16
      code units, [trim], [split], [parseInt], [parseFloat], number to
      string, a backtracking regular-expression matcher);
    - [Danmaku]: the catalog client and [autoLoadDanmaku];
    - [Player]: the component state, its callbacks and [handleHlsError];
    - the theorems, one block per property. *)

From Stdlib Require Import ZArith NArith QArith List String Ascii Bool Lia.
From stdpp Require Import base gmap.
Import ListNotations.

#[local] Open Scope Z_scope.

(* ===================================================================== *)
(** * ECMAScript built-ins *)
(* ===================================================================== *)

Module JS.

(** A JavaScript string is a sequence of UTF-16 code units. *)
Definition jsstring : Type := list N.

(** Source literals are written as UTF-8 Rocq strings and decoded here. *)
Fixpoint utf16_of_utf8 (s : string) : jsstring :=
  match s with
  | EmptyString => []
  | String a s1 =>
    let b := N_of_ascii a in
    if (b <? 128)%N then b :: utf16_of_utf8 s1
    else if (b <? 224)%N then
      match s1 with
      | String a2 s2 =>
        ((b mod 32) * 64 + N_of_ascii a2 mod 64)%N :: utf16_of_utf8 s2
      | EmptyString => [b]
      end
    else if (b <? 240)%N then
      match s1 with
      | String a2 (String a3 s3) =>
        ((b mod 16) * 4096 + (N_of_ascii a2 mod 64) * 64
         + N_of_ascii a3 mod 64)%N :: utf16_of_utf8 s3
      | _ => [b]
      end
    else
      match s1 with
      | String a2 (String a3 (String a4 s4)) =>
        let cp := ((b mod 8) * 262144 + (N_of_ascii a2 mod 64) * 4096
                   + (N_of_ascii a3 mod 64) * 64 + N_of_ascii a4 mod 64)%N in
        let v := (cp - 65536)%N in
        (55296 + v / 1024)%N :: (56320 + v mod 1024)%N :: utf16_of_utf8 s4
      | _ => [b]
      end
  end.

Definition lit (s : string) : jsstring := utf16_of_utf8 s.
Arguments lit : simpl never.

Fixpoint streq (s t : jsstring) : bool :=
  match s, t with
  | [], [] => true
  | a :: s', b :: t' => (a =? b)%N && streq s' t'
  | _, _ => false
  end.

(** [s.startsWith(p)] *)
Fixpoint startsWith (s p : jsstring) : bool :=
  match p, s with
  | [], _ => true
  | b :: p', a :: s' => (a =? b)%N && startsWith s' p'
  | _ :: _, [] => false
  end.

(** Truthiness of a string: only the empty string is falsy. *)
Definition str_truthy (s : jsstring) : bool :=
  match s with [] => false | _ => true end.

(** ** White space and [trim] *)

(** WhiteSpace and LineTerminator code units (ECMA-262, 12.2 and 12.3):
    TAB VT FF SP NBSP ZWNBSP, the Zs category, LF CR LS PS. *)
Definition isWhiteSpace (c : N) : bool :=
  ((9 <=? c) && (c <=? 13) || (c =? 32) || (c =? 160) || (c =? 5760)
   || (8192 <=? c) && (c <=? 8202) || (c =? 8232) || (c =? 8233)
   || (c =? 8239) || (c =? 8287) || (c =? 12288) || (c =? 65279))%N.

Fixpoint trimStart (s : jsstring) : jsstring :=
  match s with
  | c :: s' => if isWhiteSpace c then trimStart s' else s
  | [] => []
  end.

Definition trimEnd (s : jsstring) : jsstring := rev (trimStart (rev s)).

Definition trim (s : jsstring) : jsstring := trimEnd (trimStart s).

(** ** [split] on a single separator code unit *)

Fixpoint split_go (sep : N) (cur : jsstring) (s : jsstring) : list jsstring :=
  match s with
  | [] => [rev cur]
  | c :: s' =>
    if (c =? sep)%N then rev cur :: split_go sep [] s'
    else split_go sep (c :: cur) s'
  end.

(** [s.split(",")] when [sep] is the comma: always at least one part. *)
Definition split (sep : N) (s : jsstring) : list jsstring := split_go sep [] s.

Definition comma : N := 44.

(** ** Numbers *)

(** A Number: NaN, an infinity, or a finite value (both zeros are [Fin 0];
    the source never tells them apart). *)
Inductive number : Type :=
| NaN
| Inf (neg : bool)
| Fin (q : Q).

(** The integer-valued Numbers, which is what [parseInt] returns. *)
Inductive jsint : Type :=
| INaN
| IInf (neg : bool)
| IInt (z : Z).

(** ToBoolean on Numbers: NaN and zero are falsy. *)
Definition num_truthy (x : number) : bool :=
  match x with
  | NaN => false
  | Inf _ => true
  | Fin q => negb (Qeq_bool q 0)
  end.

Definition int_truthy (x : jsint) : bool :=
  match x with
  | INaN => false
  | IInf _ => true
  | IInt z => negb (z =? 0)
  end.

(** [a || b] on Numbers. *)
Definition num_or (a b : number) : number := if num_truthy a then a else b.
Definition int_or (a b : jsint) : jsint := if int_truthy a then a else b.

(** Strict equality [a === b] on integer-valued Numbers. *)
Definition int_seq (a b : jsint) : bool :=
  match a, b with
  | IInt x, IInt y => x =? y
  | IInf s, IInf t => Bool.eqb s t
  | _, _ => false
  end.

(** *** Rounding to binary64 (round to nearest, ties to even) *)

(** [floor (log2 (n/d))] for positive [n], [d]. *)
Definition ilog2_frac (n d : Z) : Z :=
  let e0 := Z.log2 n - Z.log2 d in
  (* 2^e0 <= n/d  iff  d * 2^e0 <= n *)
  let le :=
    if 0 <=? e0 then d * 2 ^ e0 <=? n else d <=? n * 2 ^ (- e0) in
  if le then e0 else e0 - 1.

(** The binary64 value nearest to the positive rational [n/d], as a
    mantissa and an exponent of two: [Some (m, u)] stands for [m * 2^u],
    [None] for an overflow to infinity. *)
Definition round64_pos (n d : Z) : option (Z * Z) :=
  let e := ilog2_frac n d in
  let u := Z.max e (-1022) - 52 in
  let num := n * 2 ^ Z.max 0 (- u) in
  let den := d * 2 ^ Z.max 0 u in
  let f := num / den in
  let r := num mod den in
  let m :=
    if 2 * r <? den then f
    else if den <? 2 * r then f + 1
    else if Z.even f then f else f + 1 in
  if 0 <=? u
  then if 2 ^ 1024 <=? m * 2 ^ u then None else Some (m, u)
  else Some (m, u).

Definition dyadic (m u : Z) : Q :=
  if 0 <=? u then inject_Z (m * 2 ^ u) else Qred (m # Z.to_pos (2 ^ (- u))).

Definition round64 (q : Q) : number :=
  let n := Qnum q in
  let d := Zpos (Qden q) in
  if n =? 0 then Fin 0
  else
    match round64_pos (Z.abs n) d with
    | None => Inf (n <? 0)
    | Some (m, u) => Fin (dyadic (Z.sgn n * m) u)
    end.

(** Integers round to integers (or to an infinity). *)
Definition round64Z (z : Z) : jsint :=
  if z =? 0 then IInt 0
  else
    match round64_pos (Z.abs z) 1 with
    | None => IInf (z <? 0)
    | Some (m, u) =>
      IInt (Z.sgn z * (if 0 <=? u then m * 2 ^ u else m / 2 ^ (- u)))
    end.

(** ** [parseInt] and [parseFloat] *)

(** An argument that may be [undefined] (an array index out of range) is
    converted with ToString first. *)
Definition ToString (o : option jsstring) : jsstring :=
  match o with
  | Some s => s
  | None => lit "undefined"
  end.

Definition isDigit (c : N) : bool := ((48 <=? c) && (c <=? 57))%N.

Definition digitVal (c : N) : option Z :=
  if isDigit c then Some (Z.of_N c - 48) else None.

Definition hexVal (c : N) : option Z :=
  if isDigit c then Some (Z.of_N c - 48)
  else if ((97 <=? c) && (c <=? 102))%N then Some (Z.of_N c - 87)
  else if ((65 <=? c) && (c <=? 70))%N then Some (Z.of_N c - 55)
  else None.

(** The value of the longest prefix of radix-[radix] digits, [None] when
    that prefix is empty. *)
Fixpoint digits_go (val : N -> option Z) (radix : Z) (acc : option Z)
  (s : jsstring) : option Z :=
  match s with
  | c :: s' =>
    match val c with
    | Some d =>
      digits_go val radix
        (Some (match acc with Some a => a * radix + d | None => d end)) s'
    | None => acc
    end
  | [] => acc
  end.

(** An optional sign: [(negative, rest)]. *)
Definition strip_sign (s : jsstring) : bool * jsstring :=
  match s with
  | c :: s' =>
    if (c =? 45)%N then (true, s')
    else if (c =? 43)%N then (false, s')
    else (false, s)
  | [] => (false, s)
  end.

(** [parseInt(s)] with no radix argument (ECMA-262, 19.2.5): leading white
    space, a sign, an optional [0x]/[0X] prefix, then the longest digit
    prefix, rounded to a Number.  (For more than 20 significant decimal
    digits the standard lets an engine approximate; the exact rounding is
    modelled, as V8 does.) *)
Definition parseInt (s : jsstring) : jsint :=
  let '(neg, s1) := strip_sign (trimStart s) in
  let mathInt :=
    match s1 with
    | z :: x :: s2 =>
      if ((z =? 48) && ((x =? 120) || (x =? 88)))%N
      then digits_go hexVal 16 None s2
      else digits_go digitVal 10 None s1
    | _ => digits_go digitVal 10 None s1
    end in
  match mathInt with
  | None => INaN
  | Some v => round64Z (if neg then - v else v)
  end.

Fixpoint span (p : N -> bool) (s : jsstring) : jsstring * jsstring :=
  match s with
  | c :: s' =>
    if p c then let '(a, b) := span p s' in (c :: a, b) else ([], s)
  | [] => ([], [])
  end.

Definition decimal_value (ds : jsstring) : Z :=
  match digits_go digitVal 10 None ds with Some v => v | None => 0 end.

Definition isExpChar (c : N) : bool := ((c =? 101) || (c =? 69))%N.

(** [parseFloat(s)] (ECMA-262, 19.2.4): leading white space, then the
    longest prefix that is a StrDecimalLiteral, rounded to a Number. *)
Definition parseFloat (s : jsstring) : number :=
  let '(neg, s1) := strip_sign (trimStart s) in
  if startsWith s1 (lit "Infinity") then Inf neg
  else
    let '(ip, s2) := span isDigit s1 in
    let '(fp, s3) :=
      match s2 with
      | c :: r => if (c =? 46)%N then span isDigit r else ([], s2)
      | [] => ([], s2)
      end in
    match ip, fp with
    | [], [] => NaN
    | _, _ =>
      let ex :=
        match s3 with
        | e :: r =>
          if isExpChar e then
            let '(eneg, r1) := strip_sign r in
            let '(ed, _) := span isDigit r1 in
            match ed with
            | [] => 0
            | _ => if eneg then - decimal_value ed else decimal_value ed
            end
          else 0
        | [] => 0
        end in
      let v := decimal_value (ip ++ fp) in
      let v := if neg then - v else v in
      let k := ex - Z.of_nat (length fp) in
      round64 (if 0 <=? k then inject_Z (v * 10 ^ k)
               else v # Z.to_pos (10 ^ (- k)))
    end.

(** ** Number to string in base 16, [padStart], [toUpperCase] *)

Definition hexDigit (d : Z) : N :=
  if d <? 10 then Z.to_N (48 + d) else Z.to_N (87 + d).

Fixpoint hex_go (fuel : nat) (z : Z) (acc : jsstring) : jsstring :=
  match fuel with
  | O => acc
  | S f =>
    if z =? 0 then acc
    else hex_go f (z / 16) (hexDigit (z mod 16) :: acc)
  end.

(** The lower-case base-16 digits of a non-negative integer. *)
Definition hex_of_nonneg (z : Z) : jsstring :=
  if z =? 0 then [48%N]
  else hex_go (S (Z.to_nat (Z.log2 z))) z [].

(** [x.toString(16)] on an integer-valued Number. *)
Definition toString16 (x : jsint) : jsstring :=
  match x with
  | INaN => lit "NaN"
  | IInf false => lit "Infinity"
  | IInf true => lit "-Infinity"
  | IInt z => if z <? 0 then 45%N :: hex_of_nonneg (- z) else hex_of_nonneg z
  end.

(** [x.toString()] on a non-negative integer (decimal). *)
Fixpoint dec_go (fuel : nat) (z : Z) (acc : jsstring) : jsstring :=
  match fuel with
  | O => acc
  | S f =>
    if z =? 0 then acc
    else dec_go f (z / 10) (Z.to_N (48 + z mod 10) :: acc)
  end.

Definition dec_of_nonneg (z : Z) : jsstring :=
  if z <=? 0 then [48%N]
  else dec_go (S (Z.to_nat (Z.log2 z))) z [].

(** [s.padStart(n, "0")]-style padding with one fill unit. *)
Definition padStart (n : nat) (fill : N) (s : jsstring) : jsstring :=
  repeat fill (n - length s) ++ s.

(** [s.toUpperCase()] on the ASCII letters; the strings it is applied to
    here come from [toString16] and hold no other letters. *)
Definition upper (c : N) : N :=
  if ((97 <=? c) && (c <=? 122))%N then (c - 32)%N else c.

Definition lower (c : N) : N :=
  if ((65 <=? c) && (c <=? 90))%N then (c + 32)%N else c.

Definition toUpperCase (s : jsstring) : jsstring := map upper s.

(** A template-literal interpolation of an integer, [`${z}`] (exact below
    10^21, where the decimal form has no exponent). *)
Definition decimal (z : Z) : jsstring :=
  if z <? 0 then 45%N :: dec_of_nonneg (- z) else dec_of_nonneg z.

(** ** Regular expressions *)

(** The fragment of the pattern language the source uses: classes,
    sequence, ordered alternation, greedy repetition, capturing groups and
    the end-of-input assertion. *)
Inductive regex : Type :=
| RChar (p : N -> bool)
| REmpty
| RSeq (r1 r2 : regex)
| RAlt (r1 r2 : regex)
| RStar (r : regex)
| RGroup (i : nat) (r : regex)
| REnd.

Definition captures : Type := list (nat * jsstring).

(** Greedy repetition of a [body] matcher, then the continuation [k]: try
    one more iteration first, and fall back to [k] when that fails.  An
    iteration that consumes nothing is rejected, as in ECMA-262
    (RepeatMatcher), so an iteration count of [length s] is never
    exhausted (see [JsFacts.rmatch_star]). *)
Fixpoint star_loop {R : Type}
  (body : jsstring -> captures -> (jsstring -> captures -> option R)
          -> option R)
  (k : jsstring -> captures -> option R)
  (n : nat) (s : jsstring) (c : captures) : option R :=
  match
    match n with
    | O => None
    | S n' =>
      body s c
        (fun s' c' =>
           if (length s' <? length s)%nat
           then star_loop body k n' s' c' else None)
    end
  with
  | Some x => Some x
  | None => k s c
  end.

(** The backtracking matcher in continuation-passing style: alternatives
    are tried in order, a repetition takes as many iterations as it can
    and gives them back one at a time. *)
Fixpoint rmatch {R : Type} (r : regex) (s : jsstring) (c : captures)
  (k : jsstring -> captures -> option R) : option R :=
  match r with
  | RChar p =>
    match s with
    | a :: s' => if p a then k s' c else None
    | [] => None
    end
  | REmpty => k s c
  | RSeq r1 r2 => rmatch r1 s c (fun s' c' => rmatch r2 s' c' k)
  | RAlt r1 r2 =>
    match rmatch r1 s c k with
    | Some x => Some x
    | None => rmatch r2 s c k
    end
  | RStar r1 =>
    star_loop (fun s' c' k' => rmatch r1 s' c' k') k (length s) s c
  | RGroup i r1 =>
    rmatch r1 s c
      (fun s' c' => k s' ((i, firstn (length s - length s') s) :: c'))
  | REnd =>
    match s with
    | [] => k s c
    | _ :: _ => None
    end
  end.

(** A match anchored at the head of [s]: the length matched and the
    captures. *)
Definition match_here (r : regex) (s : jsstring) : option (nat * captures) :=
  rmatch r s [] (fun rest c => Some ((length s - length rest)%nat, c)).

(** [s.match(r)] for a pattern without the [g] flag: the captures of the
    leftmost match. *)
Fixpoint exec (r : regex) (s : jsstring) : option captures :=
  match match_here r s with
  | Some (_, c) => Some c
  | None =>
    match s with
    | _ :: s' => exec r s'
    | [] => None
    end
  end.

Fixpoint capture (i : nat) (c : captures) : option jsstring :=
  match c with
  | (j, v) :: c' => if (i =? j)%nat then Some v else capture i c'
  | [] => None
  end.

(** [s.replace(r, rep)] for a pattern with the [g] flag; [skip] counts the
    code units of the current match still to drop. *)
Fixpoint replaceAll_go (r : regex) (rep : jsstring) (skip : nat)
  (s : jsstring) : jsstring :=
  match skip with
  | S k =>
    match s with
    | _ :: s' => replaceAll_go r rep k s'
    | [] => []
    end
  | O =>
    match match_here r s with
    | Some (S m, _) =>
      rep ++ match s with
             | _ :: s' => replaceAll_go r rep m s'
             | [] => []
             end
    | Some (O, _) =>
      rep ++ match s with
             | a :: s' => a :: replaceAll_go r rep 0 s'
             | [] => []
             end
    | None =>
      match s with
      | a :: s' => a :: replaceAll_go r rep 0 s'
      | [] => []
      end
    end
  end.

Definition replaceAll (r : regex) (rep : jsstring) (s : jsstring) : jsstring :=
  replaceAll_go r rep 0 s.

(** [s.replace(r, rep)] for a pattern without the [g] flag: the leftmost
    match only. *)
Fixpoint replaceFirst (r : regex) (rep : jsstring) (s : jsstring) : jsstring :=
  match match_here r s with
  | Some (n, _) => rep ++ skipn n s
  | None =>
    match s with
    | a :: s' => a :: replaceFirst r rep s'
    | [] => []
    end
  end.

(** *** Pattern builders *)

(** One literal code unit; with the [i] flag an ASCII letter matches in
    both cases (a non-ASCII unit never folds onto an ASCII one). *)
Definition chr (c : N) : regex := RChar (fun x => (x =? c)%N).
Definition chr_i (c : N) : regex :=
  RChar (fun x => (x =? lower c)%N || (x =? upper c)%N).

Fixpoint seq_of (f : N -> regex) (s : jsstring) : regex :=
  match s with
  | [] => REmpty
  | [c] => f c
  | c :: s' => RSeq (f c) (seq_of f s')
  end.

(** A literal word, case-sensitive and case-insensitive. *)
Definition word (s : string) : regex := seq_of chr (lit s).
Definition word_i (s : string) : regex := seq_of chr_i (lit s).

(** A character class given by its members. *)
Definition oneOf (s : string) : regex :=
  RChar (fun x => existsb (fun c => (x =? c)%N) (lit s)).

Definition digit : regex := RChar isDigit.
Definition plus (r : regex) : regex := RSeq r (RStar r).
Definition opt (r : regex) : regex := RAlt r REmpty.

Fixpoint alts (rs : list regex) : regex :=
  match rs with
  | [] => RChar (fun _ => false)
  | [r] => r
  | r :: rs' => RAlt r (alts rs')
  end.

Fixpoint seqs (rs : list regex) : regex :=
  match rs with
  | [] => REmpty
  | [r] => r
  | r :: rs' => RSeq r (seqs rs')
  end.

(** ** URI encoding *)

(** [encodeURIComponent]: the UTF-8 bytes of every code point outside
    [A-Za-z0-9-_.!~*'()] as [%XX]; a lone surrogate raises URIError
    ([None]). *)
Definition uriUnreserved (c : N) : bool :=
  ((48 <=? c) && (c <=? 57) || (65 <=? c) && (c <=? 90)
   || (97 <=? c) && (c <=? 122)
   || existsb (fun x => c =? x) (lit "-_.!~*'()"))%N.

Definition pct (b : N) : jsstring :=
  [37%N; upper (hexDigit (Z.of_N (b / 16))); upper (hexDigit (Z.of_N (b mod 16)))].

Fixpoint encodeURIComponent (s : jsstring) : option jsstring :=
  match s with
  | [] => Some []
  | c :: s' =>
    if uriUnreserved c then option_map (cons c) (encodeURIComponent s')
    else if (c <? 128)%N then
      option_map (app (pct c)) (encodeURIComponent s')
    else if (c <? 2048)%N then
      option_map (app (pct (192 + c / 64) ++ pct (128 + c mod 64)))
        (encodeURIComponent s')
    else if ((55296 <=? c) && (c <=? 56319))%N then
      match s' with
      | d :: s'' =>
        if ((56320 <=? d) && (d <=? 57343))%N then
          let cp := (65536 + (c - 55296) * 1024 + (d - 56320))%N in
          option_map
            (app (pct (240 + cp / 262144) ++ pct (128 + cp / 4096 mod 64)
                  ++ pct (128 + cp / 64 mod 64) ++ pct (128 + cp mod 64)))
            (encodeURIComponent s'')
        else None
      | [] => None
      end
    else if ((56320 <=? c) && (c <=? 57343))%N then None
    else
      option_map
        (app (pct (224 + c / 4096) ++ pct (128 + c / 64 mod 64)
              ++ pct (128 + c mod 64)))
        (encodeURIComponent s')
  end.

End JS.

(* ===================================================================== *)
(** * The comment catalog client and the auto-load chain *)
(* ===================================================================== *)

Module Danmaku.
Import JS.

(** ** Types of the remote catalog (the interfaces of the source) *)

Module Anime.
Record T : Type := {
  animeId : Z;
  bangumiId : jsstring;
  animeTitle : jsstring;
  type : jsstring;
  typeDescription : jsstring;
  imageUrl : jsstring;
  startDate : jsstring;
  episodeCount : Z;
  rating : number;
  source : jsstring
}.
End Anime.

Module SearchAnimeResponse.
Record T : Type := {
  errorCode : Z;
  success : bool;
  errorMessage : jsstring;
  animes : option (list Anime.T)
}.
End SearchAnimeResponse.

Module Episode.
Record T : Type := {
  seasonId : jsstring;
  episodeId : Z;
  episodeTitle : jsstring;
  episodeNumber : jsstring;
  airDate : jsstring
}.
End Episode.

Module Season.
Record T : Type := {
  id : jsstring;
  airDate : jsstring;
  name : jsstring;
  episodeCount : Z
}.
End Season.

Module Bangumi.
Record T : Type := {
  animeId : Z;
  bangumiId : jsstring;
  animeTitle : jsstring;
  imageUrl : jsstring;
  isOnAir : bool;
  airDay : Z;
  type : jsstring;
  typeDescription : jsstring;
  seasons : list Season.T;
  episodes : list Episode.T
}.
End Bangumi.

Module BangumiResponse.
Record T : Type := {
  errorCode : Z;
  success : bool;
  errorMessage : jsstring;
  bangumi : option Bangumi.T
}.
End BangumiResponse.

Module RawComment.
Record T : Type := {
  cid : Z;
  p : jsstring;  (* "time,mode,color,source" *)
  m : jsstring;  (* message *)
  t : number     (* time in seconds *)
}.
End RawComment.

Module CommentResponse.
Record T : Type := {
  count : Z;
  comments : option (list RawComment.T)
}.
End CommentResponse.

(** The overlay item handed to the player; [mode] is 0 (scroll), 1 (top)
    or 2 (bottom).  The optional [border] field is never set. *)
Module DanmakuItem.
Record T : Type := {
  text : jsstring;
  time : number;
  color : jsstring;
  mode : Z
}.
End DanmakuItem.

Module MatchResponse.
Record T : Type := {
  errorCode : Z;
  success : bool;
  errorMessage : jsstring;
  isMatched : bool;
  animeId : option Z;
  episodeId : option Z;
  animeTitle : option jsstring;
  episodeTitle : option jsstring
}.
End MatchResponse.

Module AutoLoadResult.
Record T : Type := {
  success : bool;
  danmaku : list DanmakuItem.T;
  matchedTitle : option jsstring;
  episodeTitle : option jsstring;
  message : jsstring
}.
End AutoLoadResult.

(** ** convertToDanmakuItem *)

Definition convertToDanmakuItem (comment : RawComment.T) : DanmakuItem.T :=
  let parts := split comma (RawComment.p comment) in
  let timeFromP :=
    num_or (parseFloat (ToString (nth_error parts 0))) (RawComment.t comment) in
  let modeFromP := int_or (parseInt (ToString (nth_error parts 1))) (IInt 1) in
  let colorFromP :=
    int_or (parseInt (ToString (nth_error parts 2))) (IInt 16777215) in
  let artMode :=
    if int_seq modeFromP (IInt 5) then 1
    else if int_seq modeFromP (IInt 4) then 2
    else 0 in
  let colorHex :=
    lit "#" ++ toUpperCase (padStart 6 48 (toString16 colorFromP)) in
  {| DanmakuItem.text := RawComment.m comment;
     DanmakuItem.time := timeFromP;
     DanmakuItem.color := colorHex;
     DanmakuItem.mode := artMode |}.

(** ** extractSearchKeyword *)

(** [[.\s_-]*] *)
Definition sep_run : regex :=
  RStar (RChar (fun x =>
    (x =? 46)%N || isWhiteSpace x || (x =? 95)%N || (x =? 45)%N)).

(** [/\.(mp4|mkv|avi|wmv|flv|m3u8|ts)$/i] *)
Definition re_extension : regex :=
  seqs [chr 46;
        RGroup 1 (alts [word_i "mp4"; word_i "mkv"; word_i "avi";
                        word_i "wmv"; word_i "flv"; word_i "m3u8";
                        word_i "ts"]);
        REnd].

(** [/[.\s_-]*(S\d+E\d+|第\d+[季集话]|EP?\d+|\d+集)/gi] *)
Definition re_episode_marker : regex :=
  RSeq sep_run
    (RGroup 1 (alts [
       seqs [chr_i 83; plus digit; chr_i 69; plus digit];
       seqs [word "第"; plus digit; oneOf "季集话"];
       seqs [chr_i 69; opt (chr_i 80); plus digit];
       seqs [plus digit; word "集"]])).

(** [/[.\s_-]*(1080p|720p|4K|2160p|HDR)/gi] *)
Definition re_resolution : regex :=
  RSeq sep_run
    (RGroup 1 (alts [word_i "1080p"; word_i "720p"; word_i "4K";
                     word_i "2160p"; word_i "HDR"])).

(** [/[.\s_-]*(HEVC|H\.?265|H\.?264|AAC|DDP|DD5\.1|WEB-DL)/gi] *)
Definition re_codec : regex :=
  RSeq sep_run
    (RGroup 1 (alts [
       word_i "HEVC";
       seqs [chr_i 72; opt (chr 46); word "265"];
       seqs [chr_i 72; opt (chr 46); word "264"];
       word_i "AAC";
       word_i "DDP";
       word_i "DD5.1";
       word_i "WEB-DL"])).

(** [/[\[(（]?\d{4}[\])）]?/g] *)
Definition re_year : regex :=
  seqs [opt (oneOf "[(（"); digit; digit; digit; digit; opt (oneOf "])）")].

(** [/[._\[\]【】()（）]/g] *)
Definition re_special : regex := oneOf "._[]【】()（）".

(** [/\s+/g] *)
Definition re_spaces : regex := plus (RChar isWhiteSpace).

Definition extractSearchKeyword (title : jsstring) : jsstring :=
  if negb (str_truthy title) then []
  else
    let keyword := replaceFirst re_extension [] title in
    let keyword := replaceAll re_episode_marker [] keyword in
    let keyword := replaceAll re_resolution [] keyword in
    let keyword := replaceAll re_codec [] keyword in
    let keyword := replaceAll re_year [] keyword in
    let keyword := replaceAll re_special (lit " ") keyword in
    let keyword := trim (replaceAll re_spaces (lit " ") keyword) in
    keyword.

(** ** The remote service *)

(** What [fetch] and [response.json()] can do: reject (a network error),
    or resolve with a status; [body = None] is a body that fails to parse. *)
Inductive FetchResult (A : Type) : Type :=
| NetworkError
| Response (ok : bool) (status : Z) (body : option A).
Arguments NetworkError {A}.
Arguments Response {A} ok status body.

(** The four endpoints, each identified by its argument. *)
Record Remote : Type := {
  get_search : jsstring -> FetchResult SearchAnimeResponse.T;
  get_bangumi : Z -> FetchResult BangumiResponse.T;
  get_comment : Z -> FetchResult CommentResponse.T;
  post_match : jsstring -> FetchResult MatchResponse.T
}.

Section Client.
Variable remote : Remote.

(** The request URL is built inside the [try]: a keyword that
    [encodeURIComponent] refuses is caught before any request is sent. *)
Definition searchAnime (keyword : jsstring) : list Anime.T :=
  if negb (str_truthy keyword) || streq (trim keyword) [] then []
  else
    match encodeURIComponent keyword with
    | None => []
    | Some _ =>
      match get_search remote keyword with
      | NetworkError => []
      | Response ok _ body =>
        if negb ok then []
        else
          match body with
          | None => []
          | Some data =>
            match SearchAnimeResponse.success data,
                  SearchAnimeResponse.animes data with
            | true, Some animes => animes
            | _, _ => []
            end
          end
      end
    end.

Definition getBangumi (animeId : Z) : option Bangumi.T :=
  match get_bangumi remote animeId with
  | NetworkError => None
  | Response ok _ body =>
    if negb ok then None
    else
      match body with
      | None => None
      | Some data =>
        if BangumiResponse.success data then BangumiResponse.bangumi data
        else None
      end
  end.

Definition getComments (episodeId : Z) : list DanmakuItem.T :=
  match get_comment remote episodeId with
  | NetworkError => []
  | Response ok _ body =>
    if negb ok then []
    else
      match body with
      | None => []
      | Some data =>
        match CommentResponse.comments data with
        | Some comments =>
          if (0 <? length comments)%nat
          then map convertToDanmakuItem comments
          else []
        | None => []
        end
      end
  end.

Definition matchAnime (fileName : jsstring) : option MatchResponse.T :=
  match post_match remote fileName with
  | NetworkError => None
  | Response ok _ body => if negb ok then None else body
  end.
End Client.

(** ** Awaited operations *)

(** An awaited promise resolves with a value or rejects. *)
Inductive outcome (A : Type) : Type :=
| Ret (a : A)
| Throw.
Arguments Ret {A} a.
Arguments Throw {A}.

(** The catalog as [autoLoadDanmaku] sees it: four operations it awaits. *)
Record Catalog : Type := {
  cat_matchAnime : jsstring -> outcome (option MatchResponse.T);
  cat_searchAnime : jsstring -> outcome (list Anime.T);
  cat_getBangumi : Z -> outcome (option Bangumi.T);
  cat_getComments : Z -> outcome (list DanmakuItem.T)
}.

(** The catalog of the source: its own four functions, which absorb every
    failure and so always resolve. *)
Definition client (remote : Remote) : Catalog :=
  {| cat_matchAnime := fun f => Ret (matchAnime remote f);
     cat_searchAnime := fun k => Ret (searchAnime remote k);
     cat_getBangumi := fun i => Ret (getBangumi remote i);
     cat_getComments := fun e => Ret (getComments remote e) |}.

(** The calls made, in order. *)
Inductive Request : Type :=
| ReqMatch (fileName : jsstring)
| ReqSearch (keyword : jsstring)
| ReqBangumi (animeId : Z)
| ReqComments (episodeId : Z).

(** A computation that awaits catalog operations: it extends the log of
    requests and resolves or rejects. *)
Definition IO (A : Type) : Type := list Request -> outcome A * list Request.

Definition ret {A} (a : A) : IO A := fun log => (Ret a, log).

Definition bind {A B} (c : IO A) (k : A -> IO B) : IO B :=
  fun log =>
    match c log with
    | (Ret a, log') => k a log'
    | (Throw, log') => (Throw, log')
    end.

Definition await {A} (rq : Request) (o : outcome A) : IO A :=
  fun log => (o, log ++ [rq]).

(** [try { c } catch { h }] *)
Definition try_catch {A} (c : IO A) (h : IO A) : IO A :=
  fun log =>
    match c log with
    | (Ret a, log') => (Ret a, log')
    | (Throw, log') => h log'
    end.

Declare Scope io_scope.
Delimit Scope io_scope with io.
Notation "x <- c ;; k" := (bind c (fun x => k))
  (at level 100, c at next level, right associativity) : io_scope.

(** ** autoLoadDanmaku *)

(** [/(?:E|EP|第)(\d+)(?:集|话)?/i] *)
Definition re_episode_token : regex :=
  seqs [alts [chr_i 69; word_i "EP"; word "第"];
        RGroup 1 (plus digit);
        opt (alts [word "集"; word "话"])].

(** [/S\d+E(\d+)/i] *)
Definition re_season_episode : regex :=
  seqs [chr_i 83; plus digit; chr_i 69; RGroup 1 (plus digit)].

(** [videoTitle.match(...) || videoTitle.match(...)] *)
Definition episodeMatch (videoTitle : jsstring) : option captures :=
  match exec re_episode_token videoTitle with
  | Some c => Some c
  | None => exec re_season_episode videoTitle
  end.

(** The choice of [targetEpisode] among the episodes of the detail, whose
    first element is [first]. *)
Definition selectEpisode (videoTitle : jsstring) (first : Episode.T)
  (episodes : list Episode.T) : Episode.T :=
  match episodeMatch videoTitle with
  | Some c =>
    let episodeNum := parseInt (ToString (capture 1 c)) in
    match
      List.find
        (fun ep => int_seq (parseInt (Episode.episodeNumber ep)) episodeNum)
        episodes
    with
    | Some found => found
    | None => first
    end
  | None => first
  end.

Definition msg_empty_title : jsstring := lit "视频标题为空".
Definition msg_loaded (n : nat) : jsstring :=
  lit "已加载 " ++ decimal (Z.of_nat n) ++ lit " 条弹幕".
Definition msg_no_comments : jsstring := lit "匹配成功但该剧集暂无弹幕".
Definition msg_loaded_by_search (n : nat) : jsstring :=
  lit "已加载 " ++ decimal (Z.of_nat n) ++ lit " 条弹幕 (搜索匹配)".
Definition msg_not_found : jsstring := lit "未找到匹配的弹幕，请手动搜索".
Definition msg_failed : jsstring := lit "自动加载失败，请手动搜索".

Definition failure (message : jsstring) : AutoLoadResult.T :=
  {| AutoLoadResult.success := false;
     AutoLoadResult.danmaku := [];
     AutoLoadResult.matchedTitle := None;
     AutoLoadResult.episodeTitle := None;
     AutoLoadResult.message := message |}.

(** [matchResult && matchResult.success && matchResult.isMatched &&
    matchResult.episodeId]: the episode identifier when all four hold. *)
Definition usableMatch (matchResult : option MatchResponse.T)
  : option (MatchResponse.T * Z) :=
  match matchResult with
  | Some r =>
    if MatchResponse.success r && MatchResponse.isMatched r then
      match MatchResponse.episodeId r with
      | Some e => if e =? 0 then None else Some (r, e)
      | None => None
      end
    else None
  | None => None
  end.

Section AutoLoad.
Variable catalog : Catalog.
#[local] Open Scope io_scope.

(** The search branch of the [try] block: [Some] is an early [return],
    [None] falls through to the final "not found" result. *)
Definition searchFallback (videoTitle : jsstring)
  : IO (option AutoLoadResult.T) :=
  let keyword := extractSearchKeyword videoTitle in
  if str_truthy keyword then
    animes <- await (ReqSearch keyword) (cat_searchAnime catalog keyword) ;;
    match animes with
    | [] => ret None
    | anime0 :: _ =>
      bangumi <- await (ReqBangumi (Anime.animeId anime0))
                   (cat_getBangumi catalog (Anime.animeId anime0)) ;;
      match bangumi with
      | None => ret None
      | Some b =>
        match Bangumi.episodes b with
        | [] => ret None
        | episode0 :: _ =>
          let targetEpisode :=
            selectEpisode videoTitle episode0 (Bangumi.episodes b) in
          danmaku <- await (ReqComments (Episode.episodeId targetEpisode))
                       (cat_getComments catalog
                          (Episode.episodeId targetEpisode)) ;;
          if (0 <? length danmaku)%nat then
            ret (Some
              {| AutoLoadResult.success := true;
                 AutoLoadResult.danmaku := danmaku;
                 AutoLoadResult.matchedTitle :=
                   Some (Anime.animeTitle anime0);
                 AutoLoadResult.episodeTitle :=
                   Some (Episode.episodeTitle targetEpisode);
                 AutoLoadResult.message :=
                   msg_loaded_by_search (length danmaku) |})
          else ret None
        end
      end
    end
  else ret None.

(** The body of the [try] block. *)
Definition autoLoadBody (videoTitle : jsstring) : IO AutoLoadResult.T :=
  matchResult <- await (ReqMatch videoTitle)
                   (cat_matchAnime catalog videoTitle) ;;
  match usableMatch matchResult with
  | Some (r, episodeId) =>
    danmaku <- await (ReqComments episodeId)
                 (cat_getComments catalog episodeId) ;;
    if (0 <? length danmaku)%nat then
      ret {| AutoLoadResult.success := true;
             AutoLoadResult.danmaku := danmaku;
             AutoLoadResult.matchedTitle := MatchResponse.animeTitle r;
             AutoLoadResult.episodeTitle := MatchResponse.episodeTitle r;
             AutoLoadResult.message := msg_loaded (length danmaku) |}
    else
      ret {| AutoLoadResult.success := false;
             AutoLoadResult.danmaku := [];
             AutoLoadResult.matchedTitle := MatchResponse.animeTitle r;
             AutoLoadResult.episodeTitle := MatchResponse.episodeTitle r;
             AutoLoadResult.message := msg_no_comments |}
  | None =>
    found <- searchFallback videoTitle ;;
    match found with
    | Some result => ret result
    | None => ret (failure msg_not_found)
    end
  end.

Definition autoLoadDanmaku (videoTitle : jsstring) : IO AutoLoadResult.T :=
  if negb (str_truthy videoTitle) || streq (trim videoTitle) []
  then ret (failure msg_empty_title)
  else try_catch (autoLoadBody videoTitle) (ret (failure msg_failed)).
End AutoLoad.

End Danmaku.

(* ===================================================================== *)
(** * The LocalHlsPlayer component *)
(* ===================================================================== *)

Module Player.
Import JS.

(** ** Types *)

(** Modelled from the spec: [ErrorType], [PlayerError] and [HlsErrorData]
    are declared in [src/lib/player/types.ts], which is not among the
    sources; the constructors are the string literals the component passes
    to [setPlayerError] (the FailureCategory of the specification), the
    fields are those the component reads. *)
Inductive ErrorType : Type :=
| network | media | key | manifest | fragment | unknown.

Record PlayerError : Type := {
  pe_type : ErrorType;
  pe_message : jsstring;
  pe_canRetry : bool
}.

(** [data.response], whose [code] is the HTTP status and may be absent. *)
Record LoaderResponse : Type := { code : option Z }.

Record HlsErrorData : Type := {
  type : jsstring;
  details : jsstring;
  fatal : bool;
  response : option LoaderResponse
}.

(** Modelled from the spec: the verdict of [checkCorsSupport], declared in
    [src/lib/player/cors-check.ts], which is not among the sources:
    [{success, reason?: "cors" | "expired" | "other", code?}]. *)
Inductive CorsReason : Type := cors | expired | other.

Record CorsResult : Type := {
  cr_success : bool;
  cr_reason : option CorsReason;
  cr_code : option Z
}.

Inductive PlayMode : Type := direct | proxy | detecting.

(** [Hls.ErrorTypes], read from the [Hls] argument of the handler. *)
Record HlsStatic : Type := {
  NETWORK_ERROR : jsstring;
  MEDIA_ERROR : jsstring
}.

(** The values hls.js gives them. *)
Definition Hls_js : HlsStatic :=
  {| NETWORK_ERROR := lit "networkError"; MEDIA_ERROR := lit "mediaError" |}.

Definition MAX_NETWORK_RETRY : nat := 3.
Definition MAX_MEDIA_RETRY : nat := 2.
Definition MAX_KEY_ERROR : nat := 5.

(** ** handleHlsError *)

(** The three counters the handler keeps in refs. *)
Record Counters : Type := {
  networkRetryCount : nat;
  mediaRetryCount : nat;
  keyErrorCount : nat
}.

(** What a retry timer does when it fires. *)
Inductive TimerAction : Type := StartLoad | RecoverMediaError.

(** The calls the handler makes on its arguments, and [setTimeout]. *)
Inductive Call : Type :=
| SetUseDirectPlay (v : bool)
| SetPlayMode (v : PlayMode)
| SetRetryCountSucc                 (* setRetryCount((prev) => prev + 1) *)
| SetPlayerError (type : ErrorType) (message : jsstring) (canRetry : bool)
| HlsStopLoad                       (* hls.stopLoad() *)
| SetTimeout (action : TimerAction) (delay : nat).

(** [data.response?.code] *)
Definition statusCode (data : HlsErrorData) : option Z :=
  match response data with
  | Some r => code r
  | None => None
  end.

(** [data.response?.code === n] *)
Definition code_is (data : HlsErrorData) (n : Z) : bool :=
  match statusCode data with
  | Some c => c =? n
  | None => false
  end.

(** Truthiness of [statusCode]: [undefined] and [0] are falsy. *)
Definition status_truthy (s : option Z) : bool :=
  match s with
  | Some c => negb (c =? 0)
  | None => false
  end.

Definition msg_key_404 : jsstring :=
  lit "视频加密密钥不存在（404），无法播放此视频".
Definition msg_key : jsstring := lit "视频加密密钥加载失败，无法播放".
Definition msg_manifest_404 : jsstring := lit "视频文件不存在（404）".
Definition msg_manifest_403 : jsstring :=
  lit "视频链接已过期或无效（403），请返回重新选择".
Definition msg_manifest_status (c : Z) : jsstring :=
  lit "视频清单加载失败 (HTTP " ++ decimal c ++ lit ")".
Definition msg_manifest_network : jsstring :=
  lit "视频清单加载失败，请检查网络连接".
Definition msg_fragment_404 : jsstring :=
  lit "视频片段不存在（404），该视频可能已损坏".
Definition msg_network_404 : jsstring := lit "视频资源不存在（404）".
Definition msg_network : jsstring := lit "网络连接失败，请检查网络连接".
Definition msg_media : jsstring := lit "视频格式错误或编码不支持".
Definition msg_unknown (details : jsstring) : jsstring :=
  lit "视频加载失败: "
  ++ (if str_truthy details then details else lit "未知错误").

Definition handleHlsError (data : HlsErrorData) (Hls : HlsStatic)
  (useDirectPlay : bool) (refs : Counters) : Counters * list Call :=
  (* key errors *)
  if streq (details data) (lit "keyLoadError")
     || streq (details data) (lit "keyLoadTimeOut") then
    let refs :=
      {| networkRetryCount := networkRetryCount refs;
         mediaRetryCount := mediaRetryCount refs;
         keyErrorCount := S (keyErrorCount refs) |} in
    if (MAX_KEY_ERROR <? keyErrorCount refs)%nat then
      let errorMsg := if code_is data 404 then msg_key_404 else msg_key in
      (refs, [SetPlayerError key errorMsg false; HlsStopLoad])
    else (refs, [])
  (* manifest errors *)
  else if streq (details data) (lit "manifestLoadError") then
    let is404 := code_is data 404 in
    let is403 := code_is data 403 in
    if useDirectPlay && negb is404 && negb is403
       && negb (status_truthy (statusCode data)) then
      (refs, [SetUseDirectPlay false; SetPlayMode proxy; SetRetryCountSucc])
    else
      let '(errorMsg, canRetry) :=
        if is404 then (msg_manifest_404, false)
        else if is403 then (msg_manifest_403, false)
        else
          match statusCode data with
          | Some c =>
            if negb (c =? 0) then (msg_manifest_status c, true)
            else (msg_manifest_network, true)
          | None => (msg_manifest_network, true)
          end in
      (refs, [SetPlayerError manifest errorMsg canRetry])
  (* fragment errors *)
  else if streq (details data) (lit "fragLoadError") && code_is data 404 then
    (refs, [SetPlayerError fragment msg_fragment_404 false])
  (* fatal errors *)
  else if fatal data then
    if streq (type data) (NETWORK_ERROR Hls) then
      let refs :=
        {| networkRetryCount := S (networkRetryCount refs);
           mediaRetryCount := mediaRetryCount refs;
           keyErrorCount := keyErrorCount refs |} in
      if (MAX_NETWORK_RETRY <? networkRetryCount refs)%nat then
        let errorMsg :=
          if code_is data 404 then msg_network_404 else msg_network in
        (refs, [SetPlayerError network errorMsg true; HlsStopLoad])
      else
        (refs, [SetTimeout StartLoad (1000 * networkRetryCount refs)])
    else if streq (type data) (MEDIA_ERROR Hls) then
      let refs :=
        {| networkRetryCount := networkRetryCount refs;
           mediaRetryCount := S (mediaRetryCount refs);
           keyErrorCount := keyErrorCount refs |} in
      if (MAX_MEDIA_RETRY <? mediaRetryCount refs)%nat then
        (refs, [SetPlayerError media msg_media false; HlsStopLoad])
      else
        (refs, [SetTimeout RecoverMediaError 500])
    else
      (refs, [SetPlayerError unknown (msg_unknown (details data)) true])
  else (refs, []).

(** ** The component *)

(** React state of the component (the playback part). *)
Record State : Type := {
  isLoading : bool;
  error : option PlayerError;
  isClient : bool;
  retryCount : nat;
  useDirectPlay : bool;
  playMode : PlayMode
}.

(** A pending retry timer: the stream instance its callback closes over,
    what it does and its delay in milliseconds. *)
Record Timer : Type := {
  tm_hls : nat;
  tm_action : TimerAction;
  tm_delay : nat
}.

(** The refs: [isMountedRef], the three counters, [timersRef] (keyed by
    timer identifier), [hlsRef] (an instance identifier) and [artRef]. *)
Record Refs : Type := {
  isMounted : bool;
  counters : Counters;
  timers : gmap nat Timer;
  hlsRef : option nat;
  artRef : bool
}.

(** Commands received by the stream engine, tagged with the instance. *)
Inductive EngineCmd : Type :=
| LoadSource (url : jsstring)
| AttachMedia
| StartLoadCmd
| StopLoad
| DetachMedia
| Destroy
| RecoverMediaErrorCmd.

(** The surroundings: the props, the container element, the commands the
    stream engine has received, the number of [onError] notifications and
    the next fresh timer and instance identifiers. *)
Record Host : Type := {
  videoUrl : jsstring;
  hasContainer : bool;
  engine : list (nat * EngineCmd);
  onErrorCalls : nat;
  nextTimer : nat;
  nextHls : nat
}.

Record World : Type := {
  state : State;
  refs : Refs;
  host : Host
}.

(** *** Field updates *)

Definition with_state (f : State -> State) (w : World) : World :=
  {| state := f (state w); refs := refs w; host := host w |}.
Definition with_refs (f : Refs -> Refs) (w : World) : World :=
  {| state := state w; refs := f (refs w); host := host w |}.
Definition with_host (f : Host -> Host) (w : World) : World :=
  {| state := state w; refs := refs w; host := f (host w) |}.

Definition setIsLoading (v : bool) : World -> World :=
  with_state (fun s =>
    {| isLoading := v; error := error s; isClient := isClient s;
       retryCount := retryCount s; useDirectPlay := useDirectPlay s;
       playMode := playMode s |}).
Definition setError (v : option PlayerError) : World -> World :=
  with_state (fun s =>
    {| isLoading := isLoading s; error := v; isClient := isClient s;
       retryCount := retryCount s; useDirectPlay := useDirectPlay s;
       playMode := playMode s |}).
Definition setIsClient (v : bool) : World -> World :=
  with_state (fun s =>
    {| isLoading := isLoading s; error := error s; isClient := v;
       retryCount := retryCount s; useDirectPlay := useDirectPlay s;
       playMode := playMode s |}).
Definition setRetryCount (f : nat -> nat) : World -> World :=
  with_state (fun s =>
    {| isLoading := isLoading s; error := error s; isClient := isClient s;
       retryCount := f (retryCount s); useDirectPlay := useDirectPlay s;
       playMode := playMode s |}).
Definition setUseDirectPlay (v : bool) : World -> World :=
  with_state (fun s =>
    {| isLoading := isLoading s; error := error s; isClient := isClient s;
       retryCount := retryCount s; useDirectPlay := v;
       playMode := playMode s |}).
Definition setPlayMode (v : PlayMode) : World -> World :=
  with_state (fun s =>
    {| isLoading := isLoading s; error := error s; isClient := isClient s;
       retryCount := retryCount s; useDirectPlay := useDirectPlay s;
       playMode := v |}).

Definition set_isMounted (v : bool) : World -> World :=
  with_refs (fun r =>
    {| isMounted := v; counters := counters r; timers := timers r;
       hlsRef := hlsRef r; artRef := artRef r |}).
Definition set_counters (v : Counters) : World -> World :=
  with_refs (fun r =>
    {| isMounted := isMounted r; counters := v; timers := timers r;
       hlsRef := hlsRef r; artRef := artRef r |}).
Definition set_timers (v : gmap nat Timer) : World -> World :=
  with_refs (fun r =>
    {| isMounted := isMounted r; counters := counters r; timers := v;
       hlsRef := hlsRef r; artRef := artRef r |}).
Definition set_hlsRef (v : option nat) : World -> World :=
  with_refs (fun r =>
    {| isMounted := isMounted r; counters := counters r; timers := timers r;
       hlsRef := v; artRef := artRef r |}).
Definition set_artRef (v : bool) : World -> World :=
  with_refs (fun r =>
    {| isMounted := isMounted r; counters := counters r; timers := timers r;
       hlsRef := hlsRef r; artRef := v |}).

Definition emit (hls : nat) (c : EngineCmd) : World -> World :=
  with_host (fun h =>
    {| videoUrl := videoUrl h; hasContainer := hasContainer h;
       engine := engine h ++ [(hls, c)]; onErrorCalls := onErrorCalls h;
       nextTimer := nextTimer h; nextHls := nextHls h |}).
Definition notify_onError : World -> World :=
  with_host (fun h =>
    {| videoUrl := videoUrl h; hasContainer := hasContainer h;
       engine := engine h; onErrorCalls := S (onErrorCalls h);
       nextTimer := nextTimer h; nextHls := nextHls h |}).
Definition fresh_timer : World -> World :=
  with_host (fun h =>
    {| videoUrl := videoUrl h; hasContainer := hasContainer h;
       engine := engine h; onErrorCalls := onErrorCalls h;
       nextTimer := S (nextTimer h); nextHls := nextHls h |}).
Definition set_videoUrl (v : jsstring) : World -> World :=
  with_host (fun h =>
    {| videoUrl := v; hasContainer := hasContainer h;
       engine := engine h; onErrorCalls := onErrorCalls h;
       nextTimer := nextTimer h; nextHls := nextHls h |}).
Definition fresh_hls : World -> World :=
  with_host (fun h =>
    {| videoUrl := videoUrl h; hasContainer := hasContainer h;
       engine := engine h; onErrorCalls := onErrorCalls h;
       nextTimer := nextTimer h; nextHls := S (nextHls h) |}).

(** *** Callbacks *)

(** [getProxiedUrl], for the [useDirectPlay] its closure holds; [None]
    when [encodeURIComponent] throws. *)
Definition getProxiedUrl (useDirectPlay : bool) (url : jsstring)
  : option jsstring :=
  if negb (str_truthy url) then Some []
  else if startsWith url (lit "/api/video-proxy/") then Some url
  else if useDirectPlay then Some url
  else option_map (app (lit "/api/video-proxy/")) (encodeURIComponent url).

Definition setPlayerError (type : ErrorType) (message : jsstring)
  (canRetry : bool) (w : World) : World :=
  if negb (isMounted (refs w)) then w
  else
    let w :=
      setError (Some {| pe_type := type; pe_message := message;
                        pe_canRetry := canRetry |}) w in
    let w := setIsLoading false w in
    if negb canRetry then notify_onError w else w.

Definition noCounters : Counters :=
  {| networkRetryCount := 0; mediaRetryCount := 0; keyErrorCount := 0 |}.

Definition handleRetry (w : World) : World :=
  let w := setError None w in
  let w := setIsLoading true w in
  let w := setRetryCount S w in
  set_counters noCounters w.

Definition cleanupPlayer (w : World) : World :=
  let w := set_timers ∅ w in
  let w :=
    match hlsRef (refs w) with
    | Some h =>
      set_hlsRef None (emit h Destroy (emit h DetachMedia (emit h StopLoad w)))
    | None => w
    end in
  if artRef (refs w) then set_artRef false w else w.

(** One call of the handler, carried out for the stream instance [hls]. *)
Definition perform (hls : nat) (c : Call) (w : World) : World :=
  match c with
  | SetUseDirectPlay v => setUseDirectPlay v w
  | SetPlayMode v => setPlayMode v w
  | SetRetryCountSucc => setRetryCount S w
  | SetPlayerError type message canRetry =>
    setPlayerError type message canRetry w
  | HlsStopLoad => emit hls StopLoad w
  | SetTimeout action delay =>
    let timer := nextTimer (host w) in
    fresh_timer
      (set_timers
         (<[timer := {| tm_hls := hls; tm_action := action;
                        tm_delay := delay |}]> (timers (refs w))) w)
  end.

Definition perform_all (hls : nat) (cs : list Call) (w : World) : World :=
  fold_left (fun w c => perform hls c w) cs w.

(** The listener registered on [Hls.Events.ERROR] for the instance [hls],
    whose closure holds [useDirectPlay]. *)
Definition onHlsError (Hls : HlsStatic) (hls : nat) (useDirectPlay : bool)
  (data : HlsErrorData) (w : World) : World :=
  let '(refs', calls) :=
    handleHlsError data Hls useDirectPlay (counters (refs w)) in
  perform_all hls calls (set_counters refs' w).

(** The callback of a retry timer. *)
Definition onTimer (id : nat) (w : World) : World :=
  match timers (refs w) !! id with
  | Some tm =>
    let w :=
      if isMounted (refs w)
         && match hlsRef (refs w) with Some _ => true | None => false end
      then
        emit (tm_hls tm)
          match tm_action tm with
          | StartLoad => StartLoadCmd
          | RecoverMediaError => RecoverMediaErrorCmd
          end w
      else w in
    set_timers (delete id (timers (refs w))) w
  | None => w
  end.

Definition msg_init_failed : jsstring := lit "播放器加载失败，请刷新重试".
Definition msg_video_error : jsstring := lit "视频播放失败".

(** *** The initialisation effect, cut at its two [await]s *)

(** The effect body and [initPlayer] up to its first [await]. *)
Definition effectRun (w : World) : World :=
  if negb (isClient (state w)) || negb (hasContainer (host w))
     || negb (str_truthy (videoUrl (host w)))
  then w
  else
    let w := set_isMounted true w in
    setPlayMode (if useDirectPlay (state w) then direct else proxy) w.

(** [initPlayer] resuming with the verdict of [checkCorsSupport] (direct
    mode only), up to the dynamic imports. *)
Definition probeResolved (corsResult : CorsResult) (w : World) : World :=
  if negb (isMounted (refs w)) then w
  else if negb (cr_success corsResult) then
    match cr_reason corsResult with
    | Some cors =>
      setRetryCount S (setPlayMode proxy (setUseDirectPlay false w))
    | _ => w
    end
  else w.

(** [customType.m3u8(video, url)], which the player calls with its URL. *)
Definition m3u8 (url : jsstring) (w : World) : World :=
  if negb (isMounted (refs w)) then w
  else
    let hls := nextHls (host w) in
    let w := fresh_hls w in
    let w := set_hlsRef (Some hls) w in
    emit hls AttachMedia (emit hls (LoadSource url) w).

(** [initPlayer] resuming after the dynamic imports ([ok = false] when
    they reject), in the closure of the effect run that started it, which
    holds that render's [useDirectPlay] and [videoUrl]. *)
Definition modulesLoaded (useDirectPlay : bool) (videoUrl : jsstring)
  (ok : bool) (w : World) : World :=
  if negb ok then setPlayerError unknown msg_init_failed true w
  else if negb (isMounted (refs w)) || negb (hasContainer (host w)) then w
  else
    let w := cleanupPlayer w in
    match getProxiedUrl useDirectPlay videoUrl with
    | None => setPlayerError unknown msg_init_failed true w
    | Some url => set_artRef true (m3u8 url w)
    end.

(** The cleanup of the effect. *)
Definition effectCleanup (w : World) : World :=
  cleanupPlayer (set_isMounted false w).

(** ** Events *)

Inductive Event : Type :=
| ClientReady                       (* the effect calling setIsClient(true) *)
| EffectRun
| ProbeResolved (corsResult : CorsResult)
| ModulesLoaded (useDirectPlay : bool) (videoUrl : jsstring) (ok : bool)
| HlsErrorEvent (hls : nat) (useDirectPlay : bool) (data : HlsErrorData)
| TimerFired (id : nat)
| PlayerReady                       (* art.on("ready") *)
| VideoError                        (* art.on("video:error") *)
| UserRetry                         (* handleRetry *)
| EffectCleanup
| UrlChanged (videoUrl : jsstring). (* the parent passes another videoUrl *)

Section Run.
Variable Hls : HlsStatic.

Definition step (e : Event) (w : World) : World :=
  match e with
  | ClientReady => setIsClient true w
  | EffectRun => effectRun w
  | ProbeResolved r => probeResolved r w
  | ModulesLoaded d url ok => modulesLoaded d url ok w
  | HlsErrorEvent hls d data => onHlsError Hls hls d data w
  | TimerFired id => onTimer id w
  | PlayerReady => setIsLoading false w
  | VideoError => setPlayerError media msg_video_error false w
  | UserRetry => handleRetry w
  | EffectCleanup => effectCleanup w
  | UrlChanged url => set_videoUrl url w
  end.

Definition run (es : list Event) (w : World) : World :=
  fold_left (fun w e => step e w) es w.

(** *** Re-rendering: the dependency array of the initialisation effect *)

(** The dependencies that can change between renders: [isClient],
    [videoUrl], [retryCount] and [useDirectPlay].  Of the three callbacks
    in the array, [getProxiedUrl] is memoised on [useDirectPlay] and
    [setPlayerError] and [cleanupPlayer] on nothing. *)
Definition deps (w : World) : bool * jsstring * nat * bool :=
  (isClient (state w), videoUrl (host w), retryCount (state w),
   useDirectPlay (state w)).

Definition deps_eqb (a b : bool * jsstring * nat * bool) : bool :=
  let '(c1, u1, r1, d1) := a in
  let '(c2, u2, r2, d2) := b in
  Bool.eqb c1 c2 && streq u1 u2 && Nat.eqb r1 r2 && Bool.eqb d1 d2.

(** Whether the effect run of a render got past its guard and so returned
    a cleanup. *)
Definition effectRegistered (w : World) : bool :=
  isClient (state w) && hasContainer (host w)
  && str_truthy (videoUrl (host w)).

(** The commit of the render that follows an event: when a dependency
    differs from the render before, the cleanup that render's effect
    returned runs, then the effect again. *)
Definition commit (before after : World) : World :=
  if deps_eqb (deps before) (deps after) then after
  else
    effectRun (if effectRegistered before then effectCleanup after
               else after).

Definition dispatch (e : Event) (w : World) : World :=
  commit w (step e w).

Definition play (es : list Event) (w : World) : World :=
  fold_left (fun w e => dispatch e w) es w.
End Run.

(** The component as first rendered. *)
Definition initial (videoUrl : jsstring) : World :=
  {| state :=
       {| isLoading := true; error := None; isClient := false;
          retryCount := 0; useDirectPlay := true; playMode := detecting |};
     refs :=
       {| isMounted := true; counters := noCounters; timers := ∅;
          hlsRef := None; artRef := false |};
     host :=
       {| videoUrl := videoUrl; hasContainer := true; engine := [];
          onErrorCalls := 0; nextTimer := 0; nextHls := 0 |} |}.

End Player.

(* ===================================================================== *)
(** * Vocabulary of the properties, and sample inputs *)
(* ===================================================================== *)

Module Spec.
Import JS Danmaku Player.
#[local] Open Scope Z_scope.

(** ** Streaming errors *)

(** The category the handler files an event under, read off the event
    alone ([None]: the event is not handled at all). *)
Definition categoryOf (Hls : HlsStatic) (data : HlsErrorData)
  : option ErrorType :=
  if streq (details data) (lit "keyLoadError")
     || streq (details data) (lit "keyLoadTimeOut") then Some key
  else if streq (details data) (lit "manifestLoadError") then Some manifest
  else if streq (details data) (lit "fragLoadError") && code_is data 404
  then Some fragment
  else if fatal data then
    if streq (type data) (NETWORK_ERROR Hls) then Some network
    else if streq (type data) (MEDIA_ERROR Hls) then Some media
    else Some unknown
  else None.

(** The counter that belongs to a category (none for the others). *)
Definition counterOf (c : option ErrorType) (refs : Counters) : nat :=
  match c with
  | Some key => keyErrorCount refs
  | Some network => networkRetryCount refs
  | Some media => mediaRetryCount refs
  | _ => 0
  end.

(** One more occurrence counted against a category. *)
Definition bump (c : option ErrorType) (refs : Counters) : Counters :=
  match c with
  | Some key =>
    {| networkRetryCount := networkRetryCount refs;
       mediaRetryCount := mediaRetryCount refs;
       keyErrorCount := S (keyErrorCount refs) |}
  | Some network =>
    {| networkRetryCount := S (networkRetryCount refs);
       mediaRetryCount := mediaRetryCount refs;
       keyErrorCount := keyErrorCount refs |}
  | Some media =>
    {| networkRetryCount := networkRetryCount refs;
       mediaRetryCount := S (mediaRetryCount refs);
       keyErrorCount := keyErrorCount refs |}
  | _ => refs
  end.

(** The category named by a call, when it surfaces an error. *)
Definition surfaced (c : Call) : option ErrorType :=
  match c with
  | SetPlayerError t _ _ => Some t
  | _ => None
  end.

(** A call that cannot move the transport back to direct. *)
Definition keeps_proxied (c : Call) : bool :=
  match c with
  | SetUseDirectPlay v => negb v
  | SetPlayMode proxy => true
  | SetPlayMode _ => false
  | _ => true
  end.


(** The action "switch transport". *)
Definition switchTransport : list Call :=
  [SetUseDirectPlay false; SetPlayMode proxy; SetRetryCountSucc].

(** The session is on proxied transport. *)
Definition proxied (w : World) : Prop :=
  useDirectPlay (state w) = false /\ playMode (state w) = proxy.

(** A probe verdict that failed for a cross-origin reason. *)
Definition corsFailure (r : CorsResult) : Prop :=
  cr_success r = false /\ cr_reason r = Some cors.


(** ** Comments *)

(** The three packed fields of a raw comment, as the normaliser parses
    them: [parseFloat(parts[0])], [parseInt(parts[1])],
    [parseInt(parts[2])]. *)
Definition timeField (c : RawComment.T) : number :=
  parseFloat (ToString (nth_error (split comma (RawComment.p c)) 0)).
Definition modeField (c : RawComment.T) : jsint :=
  parseInt (ToString (nth_error (split comma (RawComment.p c)) 1)).
Definition colorField (c : RawComment.T) : jsint :=
  parseInt (ToString (nth_error (split comma (RawComment.p c)) 2)).

Definition is_zero (x : number) : bool :=
  match x with
  | Fin q => Qeq_bool q 0
  | _ => false
  end.

Definition isUpperHex (c : N) : bool :=
  (isDigit c || (65 <=? c) && (c <=? 70))%N.

(** A colour of the form [#RRGGBB]. *)
Definition hex_color (s : jsstring) : bool :=
  match s with
  | c :: ds => (c =? 35)%N && (length ds =? 6)%nat && forallb isUpperHex ds
  | [] => false
  end.

(** The number a string of decimal digits denotes. *)
Definition decValue (ds : jsstring) : Z :=
  fold_left (fun a c => 10 * a + (Z.of_N c - 48)) ds 0.

(** The number a string of base-16 digits denotes. *)
Definition hexValue (ds : jsstring) : Z :=
  fold_left
    (fun a c => 16 * a + match hexVal c with Some d => d | None => 0 end)
    ds 0.

Definition raw (p : string) (t : number) : RawComment.T :=
  {| RawComment.cid := 1; RawComment.p := lit p;
     RawComment.m := lit "hello"; RawComment.t := t |}.

(** A token that cannot be read as a number: it is missing, or what
    follows its leading white space and sign does not start with a digit
    (for the time field: nor with a dot or with [Infinity]). *)
Definition after_sign (tok : option jsstring) : jsstring :=
  snd (strip_sign (trimStart (ToString tok))).

Definition non_numeric_int (tok : option jsstring) : bool :=
  match after_sign tok with
  | [] => true
  | c :: _ => negb (isDigit c)
  end.

Definition non_numeric_float (tok : option jsstring) : bool :=
  match after_sign tok with
  | [] => true
  | c :: _ =>
    negb (isDigit c) && negb (c =? 46)%N
    && negb (startsWith (after_sign tok) (lit "Infinity"))
  end.

(** ** Titles and episodes *)

(** Empty or made of white space only. *)
Definition blank (s : jsstring) : bool := forallb isWhiteSpace s.

(** The episode number named in a title: the digits captured by the first
    pattern that matches, parsed. *)
Definition episodeToken (videoTitle : jsstring) : option jsint :=
  option_map (fun c => parseInt (ToString (capture 1 c)))
    (episodeMatch videoTitle).

(** The episode's [episodeNumber] parses to [n]. *)
Definition numbered (n : jsint) (ep : Episode.T) : bool :=
  int_seq (parseInt (Episode.episodeNumber ep)) n.

(** Whether the catalog rejects a request. *)
Definition rejected {A} (o : outcome A) : bool :=
  match o with
  | Throw => true
  | Ret _ => false
  end.

Definition rejects (catalog : Catalog) (rq : Request) : bool :=
  match rq with
  | ReqMatch f => rejected (cat_matchAnime catalog f)
  | ReqSearch k => rejected (cat_searchAnime catalog k)
  | ReqBangumi i => rejected (cat_getBangumi catalog i)
  | ReqComments e => rejected (cat_getComments catalog e)
  end.

(** An endpoint's answer makes the request a failure: no response, a
    status outside 2xx, or a body that does not parse. *)
Definition failed {A : Type} (r : FetchResult A) : bool :=
  match r with
  | NetworkError => true
  | Response ok _ body =>
    negb ok || match body with
               | Some _ => false
               | None => true
               end
  end.

(** The request behind a call of the source's catalog functions fails
    (for a search, also: its URL cannot be built). *)
Definition io_failed (remote : Remote) (rq : Request) : bool :=
  match rq with
  | ReqMatch f => failed (post_match remote f)
  | ReqSearch k =>
    match encodeURIComponent k with
    | Some _ => failed (get_search remote k)
    | None => true
    end
  | ReqBangumi i => failed (get_bangumi remote i)
  | ReqComments e => failed (get_comment remote e)
  end.


Definition episode (id : Z) (number : string) : Episode.T :=
  {| Episode.seasonId := lit "1"; Episode.episodeId := id;
     Episode.episodeTitle := lit "Episode " ++ lit number;
     Episode.episodeNumber := lit number; Episode.airDate := [] |}.

Definition sample_anime : Anime.T :=
  {| Anime.animeId := 42; Anime.bangumiId := lit "42";
     Anime.animeTitle := lit "Attack on Titan"; Anime.type := lit "tvseries";
     Anime.typeDescription := lit "TV"; Anime.imageUrl := [];
     Anime.startDate := []; Anime.episodeCount := 4;
     Anime.rating := Fin 9; Anime.source := lit "sample" |}.

Definition sample_episodes : list Episode.T :=
  [episode 1001 "1"; episode 1002 "SP"; episode 1007 "07"; episode 1077 "7"].

Definition sample_bangumi : Bangumi.T :=
  {| Bangumi.animeId := 42; Bangumi.bangumiId := lit "42";
     Bangumi.animeTitle := lit "Attack on Titan"; Bangumi.imageUrl := [];
     Bangumi.isOnAir := false; Bangumi.airDay := 0;
     Bangumi.type := lit "tvseries"; Bangumi.typeDescription := lit "TV";
     Bangumi.seasons := []; Bangumi.episodes := sample_episodes |}.

Definition sample_item : DanmakuItem.T :=
  {| DanmakuItem.text := lit "hello"; DanmakuItem.time := Fin 3;
     DanmakuItem.color := lit "#FFFFFF"; DanmakuItem.mode := 0 |}.

(** A catalog with no automatic match, one search hit and comments for
    every episode. *)
Definition searching_catalog : Catalog :=
  {| cat_matchAnime := fun _ => Ret None;
     cat_searchAnime := fun _ => Ret [sample_anime];
     cat_getBangumi := fun _ => Ret (Some sample_bangumi);
     cat_getComments := fun _ => Ret [sample_item] |}.

(** Catalogs that reject at the first, second, third and last step. *)
Definition failing_at_match : Catalog :=
  {| cat_matchAnime := fun _ => Throw;
     cat_searchAnime := fun _ => Ret [sample_anime];
     cat_getBangumi := fun _ => Ret (Some sample_bangumi);
     cat_getComments := fun _ => Ret [sample_item] |}.

Definition failing_at_comments : Catalog :=
  {| cat_matchAnime := fun _ => Ret None;
     cat_searchAnime := fun _ => Ret [sample_anime];
     cat_getBangumi := fun _ => Ret (Some sample_bangumi);
     cat_getComments := fun _ => Throw |}.

Definition title_e07 : jsstring := lit "Attack on Titan E07 1080p.mkv".




(** ** Sample inputs *)

Definition sample_url : jsstring := lit "https://cdn.example.com/v/index.m3u8".

Definition manifest_event (c : option Z) : HlsErrorData :=
  {| type := lit "networkError"; details := lit "manifestLoadError";
     fatal := true; response := Some {| code := c |} |}.

Definition manifest_event_no_response : HlsErrorData :=
  {| type := lit "networkError"; details := lit "manifestLoadError";
     fatal := true; response := None |}.

Definition network_fatal_event : HlsErrorData :=
  {| type := lit "networkError"; details := lit "levelLoadError";
     fatal := true; response := None |}.

Definition frag_404_nonfatal_event : HlsErrorData :=
  {| type := lit "networkError"; details := lit "fragLoadError";
     fatal := false; response := Some {| code := Some 404 |} |}.

Definition key_nonfatal_event : HlsErrorData :=
  {| type := lit "networkError"; details := lit "keyLoadError";
     fatal := false; response := Some {| code := Some 500 |} |}.

Definition buffer_stalled_event : HlsErrorData :=
  {| type := lit "mediaError"; details := lit "bufferStalledError";
     fatal := false; response := None |}.

Definition probe_ok : CorsResult :=
  {| cr_success := true; cr_reason := None; cr_code := None |}.

Definition probe_cors : CorsResult :=
  {| cr_success := false; cr_reason := Some cors; cr_code := None |}.

(** The component playing in direct mode: mounted, probe passed, stream
    instance 0 attached. *)
Definition w_direct : World :=
  run Hls_js
    [ClientReady; EffectRun; ProbeResolved probe_ok;
     ModulesLoaded true sample_url true]
    (initial sample_url).

(** The component right after a CORS-flagged probe failure. *)
Definition w_cors : World :=
  run Hls_js [ClientReady; EffectRun; ProbeResolved probe_cors]
    (initial sample_url).

Definition two_network_retries : Counters :=
  {| networkRetryCount := 2; mediaRetryCount := 0; keyErrorCount := 0 |}.

End Spec.

(* ===================================================================== *)
(** * Properties of the streaming error handler *)
(* ===================================================================== *)

Module PlayerFacts.
Import JS Player Spec.

(** The detail codes the handler tests are pairwise distinct. *)
Lemma manifest_is_not_key :
  streq (lit "manifestLoadError") (lit "keyLoadError")
  || streq (lit "manifestLoadError") (lit "keyLoadTimeOut") = false.
Proof. reflexivity. Qed.

Lemma streq_refl (s : jsstring) : streq s s = true.
Proof.
  induction s as [|a s IH]; simpl; [reflexivity|].
  now rewrite N.eqb_refl.
Qed.

Lemma streq_eq (s t : jsstring) : streq s t = true <-> s = t.
Proof.
  split; [|intros ->; apply streq_refl].
  revert t; induction s as [|a s IH]; intros [|b t]; simpl; try congruence.
  intros H; apply andb_prop in H as [Hab Hst].
  apply N.eqb_eq in Hab; apply IH in Hst; congruence.
Qed.

(** Carrying out no call with unchanged counters leaves the world as is. *)
Lemma set_counters_same (w : World) : set_counters (counters (refs w)) w = w.
Proof. destruct w as [s [mt c t h a] hs]; reflexivity. Qed.

(** The shape of the handler on a manifest-load error, in one equation. *)
Lemma handle_manifest (data : HlsErrorData) (Hls : HlsStatic)
  (useDirectPlay : bool) (refs : Counters) :
  details data = lit "manifestLoadError" ->
  handleHlsError data Hls useDirectPlay refs =
  if useDirectPlay && negb (code_is data 404) && negb (code_is data 403)
     && negb (status_truthy (statusCode data))
  then (refs, [SetUseDirectPlay false; SetPlayMode proxy; SetRetryCountSucc])
  else
    (refs,
     [SetPlayerError manifest
        (if code_is data 404 then msg_manifest_404
         else if code_is data 403 then msg_manifest_403
         else match statusCode data with
              | Some c =>
                if negb (c =? 0) then msg_manifest_status c
                else msg_manifest_network
              | None => msg_manifest_network
              end)
        (if code_is data 404 then false
         else if code_is data 403 then false else true)]).
Proof.
  intros Hd. unfold handleHlsError. rewrite Hd.
  rewrite manifest_is_not_key, streq_refl.
  destruct (useDirectPlay && negb (code_is data 404)
            && negb (code_is data 403)
            && negb (status_truthy (statusCode data))); [reflexivity|].
  destruct (code_is data 404); [reflexivity|].
  destruct (code_is data 403); [reflexivity|].
  destruct (statusCode data) as [c|]; [|reflexivity].
  destruct (negb (c =? 0)); reflexivity.
Qed.

(** What the component shows after [setPlayerError], when mounted. *)
Lemma setPlayerError_shows t msg r (w : World) :
  isMounted (refs w) = true ->
  error (state (setPlayerError t msg r w))
  = Some {| pe_type := t; pe_message := msg; pe_canRetry := r |}
  /\ useDirectPlay (state (setPlayerError t msg r w))
     = useDirectPlay (state w)
  /\ playMode (state (setPlayerError t msg r w)) = playMode (state w).
Proof.
  intros Hm. unfold setPlayerError. rewrite Hm. simpl.
  destruct (negb r); repeat split.
Qed.

(** C1. On every manifest-load error: under direct transport with no HTTP
    status in the response (the code is absent, or it is the 0 of a request
    that received no HTTP response), the handler switches to proxied
    transport and bumps the retry count, with no error surfaced; in every
    other case it surfaces exactly one manifest error, which is not
    retryable for 404 ("file not found") and for 403 ("link expired") under
    either transport, and retryable for any other status and for no status
    under proxied transport.  The counters are untouched throughout.  In
    the component: the switch leaves the error state as it was and puts
    the session on proxied transport; the error, when the component is
    mounted, becomes the displayed error and leaves the transport alone. *)
Theorem manifest_error_policy (data : HlsErrorData) (Hls : HlsStatic)
  (useDirectPlay : bool) (refs : Counters) (hls : nat) (w : World) :
  details data = lit "manifestLoadError" ->
  let no_status := statusCode data = None \/ statusCode data = Some 0 in
  (useDirectPlay = true -> no_status ->
   handleHlsError data Hls useDirectPlay refs =
   (refs, [SetUseDirectPlay false; SetPlayMode proxy; SetRetryCountSucc]))
  /\ (statusCode data = Some 404 ->
      handleHlsError data Hls useDirectPlay refs =
      (refs, [SetPlayerError manifest msg_manifest_404 false]))
  /\ (statusCode data = Some 403 ->
      handleHlsError data Hls useDirectPlay refs =
      (refs, [SetPlayerError manifest msg_manifest_403 false]))
  /\ (forall c, statusCode data = Some c -> c <> 0 -> c <> 404 -> c <> 403 ->
      handleHlsError data Hls useDirectPlay refs =
      (refs, [SetPlayerError manifest (msg_manifest_status c) true]))
  /\ (useDirectPlay = false -> no_status ->
      handleHlsError data Hls useDirectPlay refs =
      (refs, [SetPlayerError manifest msg_manifest_network true]))
  /\ (let w' := onHlsError Hls hls useDirectPlay data w in
      (useDirectPlay = true -> no_status ->
       proxied w' /\ error (state w') = error (state w)
       /\ isLoading (state w') = isLoading (state w)
       /\ onErrorCalls (host w') = onErrorCalls (host w))
      /\ (forall msg r,
            snd (handleHlsError data Hls useDirectPlay (counters (Player.refs w)))
            = [SetPlayerError manifest msg r] ->
            isMounted (Player.refs w) = true ->
            error (state w')
            = Some {| pe_type := manifest; pe_message := msg;
                      pe_canRetry := r |}
            /\ Player.useDirectPlay (state w')
               = Player.useDirectPlay (state w)
            /\ playMode (state w') = playMode (state w))).
Proof.
  intros Hd no_status.
  assert (no_status ->
          code_is data 404 = false /\ code_is data 403 = false
          /\ status_truthy (statusCode data) = false) as Hns.
  { unfold code_is, status_truthy, no_status. intros [-> | ->]; auto. }
  split; [|split; [|split; [|split; [|split]]]].
  - rewrite (handle_manifest _ _ _ _ Hd).
    intros -> H. destruct (Hns H) as [-> [-> ->]]. reflexivity.
  - rewrite (handle_manifest _ _ _ _ Hd). unfold code_is, status_truthy.
    intros ->. now rewrite !andb_false_r.
  - rewrite (handle_manifest _ _ _ _ Hd). unfold code_is, status_truthy.
    intros ->. now rewrite !andb_false_r.
  - rewrite (handle_manifest _ _ _ _ Hd). unfold code_is, status_truthy.
    intros c -> H0 H404 H403.
    apply Z.eqb_neq in H0, H404, H403. rewrite H0, H404, H403. simpl.
    now rewrite !andb_false_r.
  - rewrite (handle_manifest _ _ _ _ Hd).
    intros -> H. destruct (Hns H) as [-> [-> _]].
    destruct H as [-> | ->]; reflexivity.
  - intros w'. subst w'. unfold onHlsError. split.
    + intros -> H. rewrite (handle_manifest _ _ _ _ Hd).
      destruct (Hns H) as [-> [-> ->]]. simpl.
      destruct w as [st [mt c t h a] hs]. repeat split.
    + intros msg r Hcalls Hm.
      rewrite (handle_manifest _ _ _ _ Hd) in *.
      destruct (useDirectPlay && negb (code_is data 404)
                && negb (code_is data 403)
                && negb (status_truthy (statusCode data)));
        [discriminate Hcalls|].
      simpl in Hcalls. injection Hcalls as <- <-.
      unfold perform_all. simpl fold_left.
      rewrite set_counters_same. now apply setPlayerError_shows.
Qed.

Lemma manifest_error_policy_witness :
  handleHlsError (manifest_event None) Hls_js true noCounters
  = (noCounters, switchTransport)
  /\ handleHlsError (manifest_event (Some 403)) Hls_js true noCounters
     = (noCounters, [SetPlayerError manifest msg_manifest_403 false])
  /\ handleHlsError (manifest_event (Some 503)) Hls_js false noCounters
     = (noCounters, [SetPlayerError manifest (msg_manifest_status 503) true])
  /\ error (state (onHlsError Hls_js 0 true (manifest_event (Some 404))
                     w_direct))
     = Some {| pe_type := manifest; pe_message := msg_manifest_404;
               pe_canRetry := false |}.
Proof.
  pose proof (manifest_error_policy (manifest_event None) Hls_js true
                noCounters 0 w_direct eq_refl) as H1.
  pose proof (manifest_error_policy (manifest_event (Some 403)) Hls_js true
                noCounters 0 w_direct eq_refl) as H2.
  pose proof (manifest_error_policy (manifest_event (Some 503)) Hls_js false
                noCounters 0 w_direct eq_refl) as H3.
  pose proof (manifest_error_policy (manifest_event (Some 404)) Hls_js true
                noCounters 0 w_direct eq_refl) as H4.
  split; [|split; [|split]].
  - apply (proj1 H1); [reflexivity | left; reflexivity].
  - apply (proj1 (proj2 (proj2 H2))). reflexivity.
  - apply (proj1 (proj2 (proj2 (proj2 H3))) 503); [reflexivity | lia ..].
  - apply (proj2 (proj2 (proj2 (proj2 (proj2 (proj2 H4)))))); reflexivity.
Defined.

(** ** Case analysis on the handler *)

Ltac split_ifs :=
  repeat match goal with
         | |- context [if ?b then _ else _] => destruct b eqn:?
         | |- context [match statusCode ?d with _ => _ end] =>
           destruct (statusCode d) eqn:?
         end.

Ltac handler_cases :=
  unfold handleHlsError, categoryOf; cbv zeta; split_ifs.

(** The handler never asks for direct transport. *)
Lemma handler_keeps_proxied (data : HlsErrorData) (Hls : HlsStatic)
  (d : bool) (refs : Counters) :
  forallb keeps_proxied (snd (handleHlsError data Hls d refs)) = true.
Proof. handler_cases; reflexivity. Qed.

(** The counters after the handler, exactly. *)
Lemma handler_counters (data : HlsErrorData) (Hls : HlsStatic)
  (d : bool) (refs : Counters) :
  fst (handleHlsError data Hls d refs) = bump (categoryOf Hls data) refs.
Proof. handler_cases; reflexivity. Qed.

(** ** Repeated events *)

(** C6, as stated, fails: the same fatal network event handled twice in a
    row, starting from two retries already counted, first schedules a
    retry and then surfaces the fatal network error; the handler itself
    moved the counter. *)
Lemma same_event_twice_differs :
  let first := handleHlsError network_fatal_event Hls_js true
                 two_network_retries in
  let second := handleHlsError network_fatal_event Hls_js true (fst first) in
  snd first = [SetTimeout StartLoad 3000]
  /\ snd second = [SetPlayerError network msg_network true; HlsStopLoad]
  /\ snd first <> snd second
  /\ fst first <> two_network_retries.
Proof. repeat split; try reflexivity; discriminate. Qed.

(** C6, amended.  The category an event is filed under depends on the
    event alone, so it is the same at every invocation; but the handler
    is not pure: each invocation counts one more occurrence against the
    category of the event (key, network or media), and the action depends
    on the event, the transport flag and that one counter only.  Two
    invocations that see the same value of that counter act alike. *)
Theorem handler_category_stable_action_counted (data : HlsErrorData)
  (Hls : HlsStatic) (d : bool) (refs : Counters) :
  let cat := categoryOf Hls data in
  (forall c t, In c (snd (handleHlsError data Hls d refs)) ->
               surfaced c = Some t -> cat = Some t)
  /\ fst (handleHlsError data Hls d refs) = bump cat refs
  /\ (forall refs2, counterOf cat refs2 = counterOf cat refs ->
       snd (handleHlsError data Hls d refs2)
       = snd (handleHlsError data Hls d refs)).
Proof.
  intros cat. split; [|split].
  - subst cat. intros c t. handler_cases; simpl;
      intros Hin Hs; repeat destruct Hin as [<- | Hin]; try contradiction;
      simpl in Hs; congruence.
  - apply handler_counters.
  - subst cat. intros refs2. unfold handleHlsError, categoryOf; cbv zeta.
    destruct (streq (details data) (lit "keyLoadError")
              || streq (details data) (lit "keyLoadTimeOut")).
    { simpl. intros ->. split_ifs; reflexivity. }
    destruct (streq (details data) (lit "manifestLoadError")).
    { intros _. split_ifs; reflexivity. }
    destruct (streq (details data) (lit "fragLoadError") && code_is data 404).
    { reflexivity. }
    destruct (fatal data); [|reflexivity].
    destruct (streq (type data) (NETWORK_ERROR Hls)).
    { simpl. intros ->. split_ifs; reflexivity. }
    destruct (streq (type data) (MEDIA_ERROR Hls)).
    { simpl. intros ->. split_ifs; reflexivity. }
    reflexivity.
Qed.

Lemma handler_category_stable_action_counted_witness :
  snd (handleHlsError network_fatal_event Hls_js true
         {| networkRetryCount := 2; mediaRetryCount := 7;
            keyErrorCount := 4 |})
  = snd (handleHlsError network_fatal_event Hls_js true two_network_retries).
Proof.
  apply (proj2 (proj2 (handler_category_stable_action_counted
                         network_fatal_event Hls_js true
                         two_network_retries))).
  reflexivity.
Defined.

(** ** Events that are not fatal *)

(** C9, as stated, fails: a fragment-load error answered 404 and flagged
    non-fatal surfaces the fragment error and notifies [onError]. *)
Lemma nonfatal_fragment_404_surfaces :
  fatal frag_404_nonfatal_event = false
  /\ handleHlsError frag_404_nonfatal_event Hls_js true noCounters
     = (noCounters, [SetPlayerError fragment msg_fragment_404 false])
  /\ error (state w_direct) = None
  /\ error (state (onHlsError Hls_js 0 true frag_404_nonfatal_event w_direct))
     = Some {| pe_type := fragment; pe_message := msg_fragment_404;
               pe_canRetry := false |}
  /\ onErrorCalls
       (host (onHlsError Hls_js 0 true frag_404_nonfatal_event w_direct)) = 1%nat.
Proof. repeat split; reflexivity. Qed.

(** C9, amended.  An event whose fatal flag is false and which is neither
    a key-load failure/timeout, nor a manifest-load error, nor a
    fragment-load error answered 404, changes nothing and makes no call.
    Key-load events count one more key error whatever the fatal flag, and
    make no call until more than [MAX_KEY_ERROR] have been counted.  For
    key-load events, manifest-load errors and fragment-load errors
    answered 404 the handler does what it does whatever the fatal flag is:
    a manifest-load error always makes a call, a fragment-load error
    answered 404 always surfaces the fragment error. *)
Theorem nonfatal_events_ignored (data : HlsErrorData) (Hls : HlsStatic)
  (hls : nat) (d : bool) (w : World) :
  (fatal data = false ->
   details data <> lit "keyLoadError" ->
   details data <> lit "keyLoadTimeOut" ->
   details data <> lit "manifestLoadError" ->
   ~ (details data = lit "fragLoadError" /\ statusCode data = Some 404) ->
   handleHlsError data Hls d (counters (refs w)) = (counters (refs w), [])
   /\ onHlsError Hls hls d data w = w)
  /\ (details data = lit "keyLoadError"
      \/ details data = lit "keyLoadTimeOut" ->
      let refs' := fst (handleHlsError data Hls d (counters (refs w))) in
      keyErrorCount refs' = S (keyErrorCount (counters (refs w)))
      /\ networkRetryCount refs' = networkRetryCount (counters (refs w))
      /\ mediaRetryCount refs' = mediaRetryCount (counters (refs w))
      /\ ((keyErrorCount refs' <= MAX_KEY_ERROR)%nat ->
          snd (handleHlsError data Hls d (counters (refs w))) = []))
  /\ (details data = lit "keyLoadError"
      \/ details data = lit "keyLoadTimeOut"
      \/ details data = lit "manifestLoadError"
      \/ (details data = lit "fragLoadError"
          /\ statusCode data = Some 404) ->
      forall f : bool,
        handleHlsError
          {| type := type data; details := details data; fatal := f;
             response := response data |} Hls d (counters (refs w))
        = handleHlsError data Hls d (counters (refs w)))
  /\ (details data = lit "manifestLoadError" ->
      snd (handleHlsError data Hls d (counters (refs w))) <> [])
  /\ (details data = lit "fragLoadError" -> statusCode data = Some 404 ->
      handleHlsError data Hls d (counters (refs w))
      = (counters (refs w),
         [SetPlayerError fragment msg_fragment_404 false])).
Proof.
  split; [|split; [|split; [|split]]]; cycle 2.
  { intros H f. unfold handleHlsError, code_is, statusCode.
    cbn [details type fatal response].
    destruct (streq (details data) (lit "keyLoadError")
              || streq (details data) (lit "keyLoadTimeOut")) eqn:Ek;
      [reflexivity|].
    destruct (streq (details data) (lit "manifestLoadError")) eqn:Em;
      [reflexivity|].
    destruct (streq (details data) (lit "fragLoadError")) eqn:Ef.
    - destruct H as [H | [H | [H | [_ H]]]];
        try (rewrite H in Ek; vm_compute in Ek; discriminate Ek);
        try (rewrite H in Em; vm_compute in Em; discriminate Em).
      unfold statusCode in H. rewrite H. reflexivity.
    - destruct H as [H | [H | [H | [H _]]]];
        try (rewrite H in Ek; vm_compute in Ek; discriminate Ek);
        try (rewrite H in Em; vm_compute in Em; discriminate Em).
      rewrite H in Ef. vm_compute in Ef. discriminate Ef. }
  { intros Hm. unfold handleHlsError. rewrite Hm.
    change (streq (lit "manifestLoadError") (lit "keyLoadError")
            || streq (lit "manifestLoadError") (lit "keyLoadTimeOut"))
      with false.
    change (streq (lit "manifestLoadError") (lit "manifestLoadError"))
      with true.
    cbv iota zeta.
    destruct (d && negb (code_is data 404) && negb (code_is data 403)
              && negb (status_truthy (statusCode data)));
      [discriminate|].
    destruct (code_is data 404); [discriminate|].
    destruct (code_is data 403); [discriminate|].
    destruct (statusCode data) as [c|]; [|discriminate].
    destruct (negb (c =? 0)); discriminate. }
  { intros Hd Hc. unfold handleHlsError, code_is. rewrite Hd, Hc.
    change (streq (lit "fragLoadError") (lit "keyLoadError")
            || streq (lit "fragLoadError") (lit "keyLoadTimeOut"))
      with false.
    change (streq (lit "fragLoadError") (lit "manifestLoadError"))
      with false.
    change (streq (lit "fragLoadError") (lit "fragLoadError")) with true.
    reflexivity. }
  - intros Hf Hk1 Hk2 Hm Hfr.
    assert (handleHlsError data Hls d (counters (refs w))
            = (counters (refs w), [])) as E.
    { unfold handleHlsError.
      destruct (streq (details data) (lit "keyLoadError")) eqn:E1;
        [apply streq_eq in E1; contradiction|].
      destruct (streq (details data) (lit "keyLoadTimeOut")) eqn:E2;
        [apply streq_eq in E2; contradiction|].
      destruct (streq (details data) (lit "manifestLoadError")) eqn:E3;
        [apply streq_eq in E3; contradiction|].
      destruct (streq (details data) (lit "fragLoadError")) eqn:E4.
      - apply streq_eq in E4. unfold code_is.
        destruct (statusCode data) as [c|] eqn:Ec.
        + destruct (Z.eqb_spec c 404) as [->|]; [tauto|].
          simpl. now rewrite Hf.
        + simpl. now rewrite Hf.
      - simpl. now rewrite Hf. }
    split; [exact E|].
    unfold onHlsError. rewrite E. simpl. apply set_counters_same.
  - intros Hk refs'. subst refs'.
    assert (streq (details data) (lit "keyLoadError")
            || streq (details data) (lit "keyLoadTimeOut") = true) as E.
    { destruct Hk as [-> | ->]; reflexivity. }
    unfold handleHlsError. rewrite E. cbv zeta. simpl keyErrorCount.
    destruct (Nat.ltb_spec MAX_KEY_ERROR (S (keyErrorCount (counters (refs w)))));
      simpl; repeat split; intros; lia.
Qed.

Lemma nonfatal_events_ignored_witness :
  onHlsError Hls_js 0 true buffer_stalled_event w_direct = w_direct
  /\ keyErrorCount
       (fst (handleHlsError key_nonfatal_event Hls_js true noCounters)) = 1%nat
  /\ handleHlsError frag_404_nonfatal_event Hls_js true noCounters
     = (noCounters, [SetPlayerError fragment msg_fragment_404 false])
  /\ snd (handleHlsError (manifest_event (Some 500)) Hls_js false noCounters)
     <> [].
Proof.
  split; [|split; [|split]].
  - apply (proj1 (nonfatal_events_ignored buffer_stalled_event Hls_js 0 true
                    w_direct)); (reflexivity || discriminate || idtac).
    intros [H _]; discriminate H.
  - apply (proj1 (proj2 (nonfatal_events_ignored key_nonfatal_event Hls_js 0
                           true (initial sample_url)))). left; reflexivity.
  - apply (proj2 (proj2 (proj2 (proj2
             (nonfatal_events_ignored frag_404_nonfatal_event Hls_js 0 true
                (initial sample_url)))))); reflexivity.
  - apply (proj1 (proj2 (proj2 (proj2
             (nonfatal_events_ignored (manifest_event (Some 500)) Hls_js 0
                false (initial sample_url)))))). reflexivity.
Defined.

(** ** Transport *)

Lemma perform_proxied (hls : nat) (c : Call) (w : World) :
  keeps_proxied c = true -> proxied w -> proxied (perform hls c w).
Proof.
  unfold proxied.
  destruct c as [v|m| |t msg r| |a dl]; simpl; intros Hc [Hu Hp].
  - destruct v; [discriminate|]. now split.
  - destruct m; try discriminate. now split.
  - now split.
  - unfold setPlayerError. destruct (negb (isMounted (refs w))); [now split|].
    destruct (negb r); now split.
  - now split.
  - now split.
Qed.

Lemma perform_all_proxied (hls : nat) (cs : list Call) (w : World) :
  forallb keeps_proxied cs = true -> proxied w ->
  proxied (perform_all hls cs w).
Proof.
  unfold perform_all. revert w.
  induction cs as [|c cs IH]; simpl; intros w Hcs Hw; [exact Hw|].
  apply andb_prop in Hcs as [Hc Hcs].
  apply IH; [exact Hcs|]. now apply perform_proxied.
Qed.

Lemma cleanupPlayer_state (w : World) : state (cleanupPlayer w) = state w.
Proof.
  unfold cleanupPlayer. simpl.
  destruct (hlsRef (refs w)); simpl; destruct (artRef (refs w)); reflexivity.
Qed.

Lemma setPlayerError_proxied t msg r (w : World) :
  proxied w -> proxied (setPlayerError t msg r w).
Proof.
  unfold proxied, setPlayerError.
  destruct (negb (isMounted (refs w))); [tauto|].
  destruct (negb r); simpl; tauto.
Qed.

(** No event moves a proxied session back to direct. *)
Lemma step_proxied (Hls : HlsStatic) (e : Event) (w : World) :
  proxied w -> proxied (step Hls e w).
Proof.
  intros Hw. pose proof Hw as [Hu Hp].
  destruct e as [| |r|d vu ok|hls d data|id| | | | |url]; simpl.
  - exact Hw.
  - unfold effectRun.
    destruct (negb (isClient (state w)) || negb (hasContainer (host w))
              || negb (str_truthy (videoUrl (host w)))); [exact Hw|].
    unfold proxied; simpl. now rewrite Hu.
  - unfold probeResolved.
    destruct (negb (isMounted (refs w))); [exact Hw|].
    destruct (negb (cr_success r)); [|exact Hw].
    destruct (cr_reason r) as [[| |]|]; try exact Hw. now split.
  - unfold modulesLoaded.
    destruct (negb ok); [now apply setPlayerError_proxied|].
    destruct (negb (isMounted (refs w)) || negb (hasContainer (host w)));
      [exact Hw|].
    assert (proxied (cleanupPlayer w)) as Hc.
    { unfold proxied. now rewrite cleanupPlayer_state. }
    destruct (getProxiedUrl d vu); [|now apply setPlayerError_proxied].
    unfold m3u8. destruct (negb (isMounted (refs (cleanupPlayer w))));
      exact Hc.
  - unfold onHlsError.
    pose proof (handler_keeps_proxied data Hls d (counters (refs w))) as Hk.
    destruct (handleHlsError data Hls d (counters (refs w))) as [refs' calls].
    apply perform_all_proxied; [exact Hk | exact Hw].
  - unfold onTimer. destruct (timers (refs w) !! id); [|exact Hw].
    destruct (isMounted (refs w)
              && match hlsRef (refs w) with Some _ => true | None => false end);
      exact Hw.
  - exact Hw.
  - now apply setPlayerError_proxied.
  - exact Hw.
  - unfold effectCleanup, proxied. now rewrite cleanupPlayer_state.
  - exact Hw.
Qed.

Lemma run_proxied (Hls : HlsStatic) (es : list Event) (w : World) :
  proxied w -> proxied (run Hls es w).
Proof.
  unfold run. revert w.
  induction es as [|e es IH]; simpl; intros w Hw; [exact Hw|].
  apply IH. now apply step_proxied.
Qed.

(** The same with the commits of the renders in between: the cleanup and
    the re-run of the effect keep a proxied session proxied. *)
Lemma commit_proxied (before after : World) :
  proxied after -> proxied (commit before after).
Proof.
  intros Ha. unfold commit.
  destruct (deps_eqb (deps before) (deps after)); [exact Ha|].
  apply (step_proxied Hls_js EffectRun).
  destruct (effectRegistered before); [|exact Ha].
  now apply (step_proxied Hls_js EffectCleanup).
Qed.

Lemma play_proxied (Hls : HlsStatic) (es : list Event) (w : World) :
  proxied w -> proxied (play Hls es w).
Proof.
  unfold play. revert w.
  induction es as [|e es IH]; simpl; intros w Hw; [exact Hw|].
  apply IH. unfold dispatch. apply commit_proxied. now apply step_proxied.
Qed.

(** C8. Once the session is on proxied transport, no sequence of events
    (user retries included) moves it back to direct; and a CORS-flagged
    probe failure puts the session on proxied transport without a stream
    instance being created or a command being sent to the stream engine:
    on a fresh component, that happens before any playback attempt. *)
Theorem transport_never_reverts (Hls : HlsStatic) (es : list Event)
  (w : World) (r : CorsResult) (url : jsstring) :
  (proxied w -> proxied (run Hls es w))
  /\ (isMounted (refs w) = true -> corsFailure r ->
      let w' := probeResolved r w in
      proxied w'
      /\ engine (host w') = engine (host w)
      /\ hlsRef (refs w') = hlsRef (refs w)
      /\ proxied (run Hls es w'))
  /\ (str_truthy url = true -> corsFailure r ->
      let w' := run Hls [ClientReady; EffectRun; ProbeResolved r]
                  (initial url) in
      proxied w' /\ engine (host w') = [] /\ hlsRef (refs w') = None
      /\ proxied (run Hls es w')).
Proof.
  split; [apply run_proxied|]. split.
  - intros Hm [Hs Hr] w'.
    assert (w' = setRetryCount S (setPlayMode proxy (setUseDirectPlay false w)))
      as ->.
    { subst w'. unfold probeResolved. now rewrite Hm, Hs, Hr. }
    assert (proxied
              (setRetryCount S (setPlayMode proxy (setUseDirectPlay false w))))
      as Hp by (split; reflexivity).
    split; [exact Hp|]. split; [reflexivity|]. split; [reflexivity|].
    now apply run_proxied.
  - intros Hurl [Hs Hr] w'.
    assert (w' = setRetryCount S
                   (setPlayMode proxy
                      (setUseDirectPlay false
                         (effectRun (setIsClient true (initial url))))))
      as ->.
    { subst w'. unfold run. simpl. unfold probeResolved, effectRun. simpl.
      now rewrite Hurl, Hs, Hr. }
    assert (effectRun (setIsClient true (initial url))
            = setPlayMode direct
                (set_isMounted true (setIsClient true (initial url)))) as E.
    { unfold effectRun. simpl. now rewrite Hurl. }
    rewrite E.
    assert (proxied
              (setRetryCount S
                 (setPlayMode proxy
                    (setUseDirectPlay false
                       (setPlayMode direct
                          (set_isMounted true
                             (setIsClient true (initial url))))))))
      as Hp by (split; reflexivity).
    split; [exact Hp|]. split; [reflexivity|]. split; [reflexivity|].
    now apply run_proxied.
Qed.

Lemma transport_never_reverts_witness :
  proxied (run Hls_js
             [UserRetry; EffectCleanup; EffectRun; ModulesLoaded false sample_url true;
              HlsErrorEvent 0 false (manifest_event None); UserRetry;
              EffectRun]
             w_cors)
  /\ engine (host w_cors) = [].
Proof.
  pose proof (transport_never_reverts Hls_js
                [UserRetry; EffectCleanup; EffectRun; ModulesLoaded false sample_url true;
                 HlsErrorEvent 0 false (manifest_event None); UserRetry;
                 EffectRun]
                w_cors probe_cors sample_url) as [H1 [_ H3]].
  split.
  - apply H1. split; reflexivity.
  - apply H3; [reflexivity | split; reflexivity].
Defined.

(** Under proxied transport the URL handed to the stream engine goes
    through the relay. *)
Lemma startsWith_app (p s : jsstring) : startsWith (p ++ s) p = true.
Proof.
  induction p as [|a p IH]; simpl; [now destruct s|].
  now rewrite N.eqb_refl.
Qed.

Lemma getProxiedUrl_proxied (url u : jsstring) :
  getProxiedUrl false url = Some u -> url <> [] ->
  startsWith u (lit "/api/video-proxy/") = true.
Proof.
  unfold getProxiedUrl. destruct url as [|a url]; [congruence|].
  change (negb (str_truthy (a :: url))) with false. cbv iota.
  destruct (startsWith (a :: url) (lit "/api/video-proxy/")) eqn:E.
  - intros [= <-] _. exact E.
  - destruct (encodeURIComponent (a :: url)) as [e|]; unfold option_map;
      [|discriminate].
    intros H _.
    assert (u = lit "/api/video-proxy/" ++ e) as -> by congruence.
    apply startsWith_app.
Qed.

Lemma cleanupPlayer_engine (w : World) (h : nat) (u : jsstring) :
  In (h, LoadSource u) (engine (host (cleanupPlayer w))) ->
  In (h, LoadSource u) (engine (host w)).
Proof.
  unfold cleanupPlayer. simpl.
  destruct (hlsRef (refs w)) as [h0|]; simpl;
    destruct (artRef (refs w)); simpl; try tauto;
    rewrite !in_app_iff; simpl; intuition discriminate.
Qed.

(** A player initialised while the session is proxied asks the stream
    engine for a relay URL only. *)
Lemma proxied_init_loads_relay (w : World) (videoUrl : jsstring) (h : nat)
  (u : jsstring) :
  videoUrl <> [] ->
  In (h, LoadSource u)
     (engine (host (modulesLoaded false videoUrl true w))) ->
  In (h, LoadSource u) (engine (host w))
  \/ startsWith u (lit "/api/video-proxy/") = true.
Proof.
  intros Hurl. unfold modulesLoaded. simpl negb.
  cbv iota.
  destruct (negb (isMounted (refs w)) || negb (hasContainer (host w)));
    [now left|].
  destruct (getProxiedUrl false videoUrl) as [url|] eqn:Eg.
  - unfold m3u8.
    destruct (negb (isMounted (refs (cleanupPlayer w)))); simpl.
    + intros Hin. left. now apply cleanupPlayer_engine.
    + rewrite !in_app_iff. simpl.
      intros [[Hin | [[= _ <-] | []]] | [[=] | []]].
      * left. now apply cleanupPlayer_engine.
      * right. now apply (getProxiedUrl_proxied _ _ Eg).
  - unfold setPlayerError.
    destruct (negb (isMounted (refs (cleanupPlayer w)))); simpl.
    + intros Hin. left. now apply cleanupPlayer_engine.
    + intros Hin. left. now apply cleanupPlayer_engine.
Qed.

Example manifest_without_status :
  handleHlsError manifest_event_no_response Hls_js true noCounters
  = (noCounters, switchTransport)
  /\ handleHlsError (manifest_event (Some 0)) Hls_js true noCounters
     = (noCounters, switchTransport)
  /\ handleHlsError manifest_event_no_response Hls_js false noCounters
     = (noCounters, [SetPlayerError manifest msg_manifest_network true])
  /\ handleHlsError (manifest_event (Some 404)) Hls_js true noCounters
     = (noCounters, [SetPlayerError manifest msg_manifest_404 false]).
Proof. vm_compute. repeat split. Qed.

(** Four fatal network errors in a row: three retries after 1, 2 and 3
    seconds, then the fatal, retryable network error. *)
Example four_network_errors :
  let h refs := handleHlsError network_fatal_event Hls_js false refs in
  snd (h noCounters) = [SetTimeout StartLoad 1000]
  /\ snd (h (fst (h noCounters))) = [SetTimeout StartLoad 2000]
  /\ snd (h (fst (h (fst (h noCounters))))) = [SetTimeout StartLoad 3000]
  /\ snd (h (fst (h (fst (h (fst (h noCounters)))))))
     = [SetPlayerError network msg_network true; HlsStopLoad].
Proof. vm_compute. repeat split. Qed.

(** ** The retry count *)












End PlayerFacts.

(* ===================================================================== *)
(** * Properties of the built-ins *)
(* ===================================================================== *)

Module JsFacts.
Import JS Spec.

(** ** [trim] *)

Lemma trimStart_head (s : jsstring) (c : N) (r : jsstring) :
  trimStart s = c :: r -> isWhiteSpace c = false.
Proof.
  induction s as [|a s IH]; simpl; [discriminate|].
  destruct (isWhiteSpace a) eqn:E; [exact IH|].
  intros [= <- _]. exact E.
Qed.

Lemma trimStart_nil (s : jsstring) :
  trimStart s = [] <-> forallb isWhiteSpace s = true.
Proof.
  induction s as [|a s IH]; simpl; [tauto|].
  destruct (isWhiteSpace a); simpl; [exact IH|].
  split; discriminate.
Qed.

Lemma forallb_rev {A} (f : A -> bool) (l : list A) :
  forallb f (rev l) = forallb f l.
Proof.
  induction l as [|a l IH]; simpl; [reflexivity|].
  rewrite forallb_app, IH. simpl. rewrite andb_true_r. apply andb_comm.
Qed.

(** [s.trim()] is the empty string exactly when [s] is empty or white
    space only. *)
Lemma trim_blank (s : jsstring) : streq (trim s) [] = blank s.
Proof.
  unfold trim, trimEnd, blank.
  destruct (forallb isWhiteSpace s) eqn:E.
  - apply trimStart_nil in E. rewrite E. reflexivity.
  - destruct (trimStart s) as [|c r] eqn:Es.
    + apply trimStart_nil in Es. congruence.
    + pose proof (trimStart_head _ _ _ Es) as Hc.
      destruct (trimStart (rev (c :: r))) as [|c' r'] eqn:Er.
      * apply trimStart_nil in Er. rewrite forallb_rev in Er.
        simpl in Er. rewrite Hc in Er. discriminate.
      * simpl. destruct (rev r' ++ [c']) eqn:Ea; [|reflexivity].
        now apply app_eq_nil in Ea as [_ Ea].
Qed.

(** ** Rounding *)

Lemma round64Z_not_NaN (z : Z) : round64Z z <> INaN.
Proof.
  unfold round64Z. destruct (z =? 0); [discriminate|].
  destruct (round64_pos (Z.abs z) 1) as [[m u]|]; discriminate.
Qed.

(** ** The matcher *)

Section Matcher.
Context {R : Type}.

(** The result depends on the continuation through its values only. *)
Lemma star_loop_ext
  (body : jsstring -> captures -> (jsstring -> captures -> option R)
          -> option R)
  (k1 k2 : jsstring -> captures -> option R) :
  (forall s c f g, (forall s' c', f s' c' = g s' c') ->
                   body s c f = body s c g) ->
  (forall s c, k1 s c = k2 s c) ->
  forall n s c, star_loop body k1 n s c = star_loop body k2 n s c.
Proof.
  intros Hbody Hk. induction n as [|n IH]; intros s c; simpl.
  - apply Hk.
  - rewrite (Hbody s c _
               (fun s' c' =>
                  if (length s' <? length s)%nat
                  then star_loop body k2 n s' c' else None)).
    + now rewrite Hk.
    + intros s' c'. destruct (length s' <? length s)%nat; [apply IH|easy].
Qed.

Lemma rmatch_ext (r : regex) :
  forall s c (k1 k2 : jsstring -> captures -> option R),
    (forall s' c', k1 s' c' = k2 s' c') ->
    rmatch r s c k1 = rmatch r s c k2.
Proof.
  induction r as [p| |r1 IH1 r2 IH2|r1 IH1 r2 IH2|r1 IH1|i r1 IH1|];
    intros s c k1 k2 Hk; simpl.
  - destruct s as [|a s]; [reflexivity|]. destruct (p a); [apply Hk|easy].
  - apply Hk.
  - apply IH1. intros s' c'. now apply IH2.
  - rewrite (IH1 s c k1 k2 Hk), (IH2 s c k1 k2 Hk). reflexivity.
  - apply star_loop_ext; [|exact Hk].
    intros s0 c0 f g Hfg. now apply IH1.
  - apply IH1. intros s' c'. apply Hk.
  - destruct s; [apply Hk | reflexivity].
Qed.

(** A match is only ever produced by the continuation. *)
Lemma rmatch_fail (r : regex) :
  forall s c, rmatch r s c (fun _ _ => @None R) = None.
Proof.
  induction r as [p| |r1 IH1 r2 IH2|r1 IH1 r2 IH2|r1 IH1|i r1 IH1|];
    intros s c; simpl.
  - destruct s as [|a s]; [reflexivity|]. now destruct (p a).
  - reflexivity.
  - rewrite (rmatch_ext r1 s c (fun s' c' => rmatch r2 s' c' (fun _ _ => None))
               (fun _ _ => None)); [apply IH1|].
    intros s' c'. apply IH2.
  - now rewrite IH1, IH2.
  - generalize (length s) at 1. intros n. revert s c.
    induction n as [|n IHn]; intros s c; simpl; [reflexivity|].
    erewrite rmatch_ext; [rewrite IH1; reflexivity|].
    intros s' c'. simpl. destruct (length s' <? length s)%nat; [apply IHn|easy].
  - apply IH1.
  - now destruct s.
Qed.

Lemma rmatch_no_cont (r : regex) (s : jsstring) (c : captures)
  (k : jsstring -> captures -> option R) :
  (forall s' c', k s' c' = None) -> rmatch r s c k = None.
Proof.
  intros H. rewrite (rmatch_ext r s c k (fun _ _ => None) H).
  apply rmatch_fail.
Qed.

(** Any iteration count that is at least the length of the input gives
    the same result. *)
Lemma star_loop_bound (r : regex) (k : jsstring -> captures -> option R) :
  forall m n1 n2 s c,
    (length s <= m)%nat -> (length s <= n1)%nat -> (length s <= n2)%nat ->
    star_loop (fun s' c' k' => rmatch r s' c' k') k n1 s c
    = star_loop (fun s' c' k' => rmatch r s' c' k') k n2 s c.
Proof.
  induction m as [|m IH]; intros n1 n2 s c Hm H1 H2.
  - assert (forall n, star_loop (fun s' c' k' => rmatch r s' c' k') k n s c
                      = k s c) as E.
    { intros [|n]; simpl; [reflexivity|].
      rewrite rmatch_no_cont; [reflexivity|].
      intros s' c'. destruct (Nat.ltb_spec (length s') (length s)); [lia|easy]. }
    now rewrite !E.
  - destruct n1 as [|n1], n2 as [|n2]; simpl.
    + reflexivity.
    + rewrite rmatch_no_cont; [reflexivity|].
      intros s' c'. destruct (Nat.ltb_spec (length s') (length s)); [lia|easy].
    + rewrite rmatch_no_cont; [reflexivity|].
      intros s' c'. destruct (Nat.ltb_spec (length s') (length s)); [lia|easy].
    + rewrite (rmatch_ext r s c _
                 (fun s' c' =>
                    if (length s' <? length s)%nat
                    then star_loop (fun s' c' k' => rmatch r s' c' k') k n2
                           s' c'
                    else None)); [reflexivity|].
      intros s' c'. destruct (Nat.ltb_spec (length s') (length s));
        [|reflexivity].
      apply IH; lia.
Qed.

(** The repetition satisfies the defining equation of the greedy star:
    one more iteration that consumes something and then the star again,
    or else the continuation.  The iteration count plays no part. *)
Lemma rmatch_star (r : regex) (s : jsstring) (c : captures)
  (k : jsstring -> captures -> option R) :
  rmatch (RStar r) s c k
  = match
      rmatch r s c
        (fun s' c' =>
           if (length s' <? length s)%nat
           then rmatch (RStar r) s' c' k else None)
    with
    | Some x => Some x
    | None => k s c
    end.
Proof.
  simpl. destruct s as [|a s]; simpl length.
  - simpl. rewrite rmatch_no_cont; [reflexivity|].
    intros s' c'. destruct (Nat.ltb_spec (length s') 0); [lia|easy].
  - simpl star_loop at 1.
    rewrite (rmatch_ext r (a :: s) c _
               (fun s' c' =>
                  if (length s' <? S (length s))%nat
                  then star_loop (fun s' c' k' => rmatch r s' c' k') k
                         (length s') s' c'
                  else None)); [reflexivity|].
    intros s' c'. simpl length.
    destruct (Nat.ltb_spec (length s') (S (length s))); [|reflexivity].
    apply (star_loop_bound r k (length s)); lia.
Qed.

End Matcher.

(** ** Tokens that are not numbers *)

Lemma digits_go_no_digit (val : N -> option Z) (radix : Z) (acc : option Z)
  (c : N) (s : jsstring) :
  val c = None -> digits_go val radix acc (c :: s) = acc.
Proof. intros H. simpl. now rewrite H. Qed.

Lemma parseInt_non_numeric (tok : option jsstring) :
  non_numeric_int tok = true -> parseInt (ToString tok) = INaN.
Proof.
  unfold non_numeric_int, after_sign, parseInt.
  destruct (strip_sign (trimStart (ToString tok))) as [neg s1]. simpl.
  destruct s1 as [|c s1]; [reflexivity|].
  intros Hc. apply negb_true_iff in Hc.
  assert (digits_go digitVal 10 None (c :: s1) = None) as Hd.
  { apply digits_go_no_digit. unfold digitVal. now rewrite Hc. }
  destruct s1 as [|x s2]; [now rewrite Hd|].
  destruct (c =? 48)%N eqn:E0.
  - apply N.eqb_eq in E0; subst c. discriminate Hc.
  - cbv beta iota. rewrite andb_false_l. now rewrite Hd.
Qed.

Lemma span_no_match (p : N -> bool) (c : N) (s : jsstring) :
  p c = false -> span p (c :: s) = ([], c :: s).
Proof. intros H. simpl. now rewrite H. Qed.

Lemma parseFloat_non_numeric (tok : option jsstring) :
  non_numeric_float tok = true -> parseFloat (ToString tok) = NaN.
Proof.
  unfold non_numeric_float, after_sign, parseFloat.
  destruct (strip_sign (trimStart (ToString tok))) as [neg s1]. simpl.
  destruct s1 as [|c s1]; [reflexivity|].
  intros H. apply andb_prop in H as [H Hi]. apply andb_prop in H as [Hd Hdot].
  apply negb_true_iff in Hi, Hd, Hdot.
  rewrite Hi. rewrite (span_no_match _ _ _ Hd). now rewrite Hdot.
Qed.

(** ** Base-16 rendering *)

Lemma hex_go_app (fuel : nat) (z : Z) (acc : jsstring) :
  hex_go fuel z acc = hex_go fuel z [] ++ acc.
Proof.
  revert z acc. induction fuel as [|f IH]; intros z acc; simpl; [reflexivity|].
  destruct (z =? 0); [reflexivity|].
  rewrite IH. rewrite (IH _ [_]). now rewrite <- app_assoc.
Qed.

Lemma hexDigit_upper (d : Z) :
  0 <= d < 16 ->
  hexVal (upper (hexDigit d)) = Some d
  /\ isUpperHex (upper (hexDigit d)) = true.
Proof.
  intros H.
  assert (d = 0 \/ d = 1 \/ d = 2 \/ d = 3 \/ d = 4 \/ d = 5 \/ d = 6
          \/ d = 7 \/ d = 8 \/ d = 9 \/ d = 10 \/ d = 11 \/ d = 12
          \/ d = 13 \/ d = 14 \/ d = 15) as Hd by lia.
  repeat (destruct Hd as [-> | Hd]; [split; reflexivity|]).
  subst d; split; reflexivity.
Qed.

Lemma hexValue_snoc (l : jsstring) (c : N) :
  hexValue (l ++ [c])
  = 16 * hexValue l + match hexVal c with Some d => d | None => 0 end.
Proof. unfold hexValue. now rewrite fold_left_app. Qed.

Lemma hexValue_zeros (k : nat) (l : jsstring) :
  hexValue (repeat 48%N k ++ l) = hexValue l.
Proof.
  unfold hexValue. rewrite fold_left_app.
  replace (fold_left _ (repeat 48%N k) 0) with 0; [reflexivity|].
  induction k as [|k IH]; simpl; [reflexivity | exact IH].
Qed.

Lemma hex_go_spec (fuel : nat) (z : Z) :
  0 <= z < 16 ^ Z.of_nat fuel ->
  hexValue (map upper (hex_go fuel z [])) = z
  /\ forallb isUpperHex (map upper (hex_go fuel z [])) = true
  /\ (forall k : nat, z < 16 ^ Z.of_nat k ->
      (length (hex_go fuel z []) <= k)%nat).
Proof.
  revert z. induction fuel as [|f IH]; intros z Hz.
  - simpl in *. split; [unfold hexValue; simpl; lia|].
    split; [reflexivity|]. intros k _. simpl. lia.
  - simpl hex_go. destruct (Z.eqb_spec z 0) as [-> | Hne].
    + split; [reflexivity|]. split; [reflexivity|].
      intros k _. simpl. lia.
    + rewrite Nat2Z.inj_succ, Z.pow_succ_r in Hz by lia.
      assert (0 <= z / 16 < 16 ^ Z.of_nat f) as Hq.
      { split; [apply Z.div_pos; lia|].
        apply Z.div_lt_upper_bound; lia. }
      assert (0 <= z mod 16 < 16) as Hr by (apply Z.mod_pos_bound; lia).
      destruct (IH _ Hq) as [Hv [Hf Hl]].
      destruct (hexDigit_upper _ Hr) as [Hd Hu].
      rewrite hex_go_app, map_app. simpl map.
      split; [|split].
      * rewrite hexValue_snoc, Hv, Hd.
        rewrite (Z.div_mod z 16) at 3 by lia. lia.
      * rewrite forallb_app, Hf. simpl. now rewrite Hu.
      * intros k Hk. rewrite length_app. simpl.
        destruct k as [|k]; [simpl in Hk; lia|].
        rewrite Nat2Z.inj_succ, Z.pow_succ_r in Hk by lia.
        assert (length (hex_go f (z / 16) []) <= k)%nat; [|lia].
        apply Hl. apply Z.div_lt_upper_bound; lia.
Qed.

Lemma hex_of_nonneg_spec (z : Z) :
  0 <= z ->
  hexValue (map upper (hex_of_nonneg z)) = z
  /\ forallb isUpperHex (map upper (hex_of_nonneg z)) = true
  /\ (forall k : nat, (1 <= k)%nat -> z < 16 ^ Z.of_nat k ->
      (length (hex_of_nonneg z) <= k)%nat).
Proof.
  intros Hz. unfold hex_of_nonneg.
  destruct (Z.eqb_spec z 0) as [-> | Hne].
  - split; [reflexivity|]. split; [reflexivity|].
    intros k Hk _. simpl. lia.
  - assert (0 < z) as Hpos by lia.
    destruct (Z.log2_spec z Hpos) as [_ Hlt].
    assert (0 <= Z.log2 z) as Hl by apply Z.log2_nonneg.
    assert (0 <= z < 16 ^ Z.of_nat (S (Z.to_nat (Z.log2 z)))) as Hb.
    { split; [lia|]. rewrite Nat2Z.inj_succ, Z2Nat.id by lia.
      eapply Z.lt_le_trans; [exact Hlt|].
      apply Z.pow_le_mono_l. lia. }
    destruct (hex_go_spec _ _ Hb) as [Hv [Hf Hlen]].
    split; [exact Hv|]. split; [exact Hf|]. intros k _. apply Hlen.
Qed.

(** Within the RGB range the rendering is six upper-case base-16 digits
    that denote the number. *)
Lemma render_hex6 (z : Z) :
  0 <= z <= 16777215 ->
  let ds := toUpperCase (padStart 6 48 (toString16 (IInt z))) in
  length ds = 6%nat /\ forallb isUpperHex ds = true /\ hexValue ds = z.
Proof.
  intros Hz ds. subst ds. unfold toString16, toUpperCase, padStart.
  destruct (Z.ltb_spec z 0) as [?|_]; [lia|].
  destruct (hex_of_nonneg_spec z) as [Hv [Hf Hl]]; [lia|].
  assert (length (hex_of_nonneg z) <= 6)%nat as Hlen.
  { apply Hl; [lia|]. change (16 ^ Z.of_nat 6) with 16777216. lia. }
  rewrite map_app, length_app, !length_map, repeat_length.
  split; [lia|]. split.
  - rewrite forallb_app, Hf, andb_true_r.
    generalize (6 - length (hex_of_nonneg z))%nat as k.
    induction k as [|k IH]; simpl; [reflexivity | exact IH].
  - rewrite map_repeat. change (upper 48) with 48%N.
    now rewrite hexValue_zeros.
Qed.

Lemma hexVal_range (c : N) :
  0 <= match hexVal c with Some d => d | None => 0 end <= 15.
Proof.
  unfold hexVal, isDigit.
  destruct ((48 <=? c) && (c <=? 57))%N eqn:E1.
  { apply andb_prop in E1 as [H1 H2].
    apply N.leb_le in H1. apply N.leb_le in H2. lia. }
  destruct ((97 <=? c) && (c <=? 102))%N eqn:E2.
  { apply andb_prop in E2 as [H1 H2].
    apply N.leb_le in H1. apply N.leb_le in H2. lia. }
  destruct ((65 <=? c) && (c <=? 70))%N eqn:E3; [|lia].
  apply andb_prop in E3 as [H1 H2].
  apply N.leb_le in H1. apply N.leb_le in H2. lia.
Qed.

(** A string of [n] characters denotes a number below [16^n]. *)
Lemma hexValue_bound (ds : jsstring) :
  0 <= hexValue ds < 16 ^ Z.of_nat (length ds).
Proof.
  induction ds as [|c ds IH] using rev_ind; [cbn; lia|].
  rewrite hexValue_snoc, length_app. cbn [length].
  replace (Z.of_nat (length ds + 1)) with (Z.succ (Z.of_nat (length ds)))
    by lia.
  rewrite Z.pow_succ_r by lia.
  pose proof (hexVal_range c). lia.
Qed.

(** Above the RGB range the rendering has more than six characters. *)
Lemma render_hex_wide (z : Z) :
  16777215 < z ->
  (7 <= length (toUpperCase (padStart 6 48 (toString16 (IInt z)))))%nat.
Proof.
  intros Hz. unfold toString16, toUpperCase, padStart.
  destruct (Z.ltb_spec z 0) as [?|_]; [lia|].
  destruct (hex_of_nonneg_spec z) as [Hv _]; [lia|].
  pose proof (hexValue_bound (map upper (hex_of_nonneg z))) as Hb.
  rewrite Hv, length_map in Hb.
  rewrite length_map, length_app, repeat_length.
  destruct (Nat.le_gt_cases 7 (length (hex_of_nonneg z))) as [?|Hlt]; [lia|].
  exfalso.
  assert (16 ^ Z.of_nat (length (hex_of_nonneg z)) <= 16 ^ 6) as Hp
    by (apply Z.pow_le_mono_r; lia).
  change (16 ^ 6) with 16777216 in Hp. lia.
Qed.

(** A negative code keeps its sign in the rendering. *)
Lemma render_hex_negative (z : Z) :
  z < 0 ->
  forallb isUpperHex (toUpperCase (padStart 6 48 (toString16 (IInt z))))
  = false.
Proof.
  intros Hz. unfold toString16, toUpperCase, padStart.
  destruct (Z.ltb_spec z 0) as [_|?]; [|lia].
  rewrite map_app, forallb_app. cbn [map forallb].
  change (isUpperHex (upper 45)) with false.
  cbn [andb]. apply andb_false_r.
Qed.

(** ** Decimal rendering *)

Lemma dec_go_app (fuel : nat) (z : Z) (acc : jsstring) :
  dec_go fuel z acc = dec_go fuel z [] ++ acc.
Proof.
  revert z acc. induction fuel as [|f IH]; intros z acc; simpl; [reflexivity|].
  destruct (z =? 0); [reflexivity|].
  rewrite IH. rewrite (IH _ [_]). now rewrite <- app_assoc.
Qed.

Lemma dec_go_spec (fuel : nat) (z : Z) :
  0 <= z < 10 ^ Z.of_nat fuel ->
  decValue (dec_go fuel z []) = z
  /\ forallb isDigit (dec_go fuel z []) = true.
Proof.
  revert z. induction fuel as [|f IH]; intros z Hz.
  - simpl in *. split; [unfold decValue; simpl; lia | reflexivity].
  - simpl dec_go. destruct (Z.eqb_spec z 0) as [-> | Hne].
    + split; reflexivity.
    + rewrite Nat2Z.inj_succ, Z.pow_succ_r in Hz by lia.
      assert (0 <= z / 10 < 10 ^ Z.of_nat f) as Hq.
      { split; [apply Z.div_pos; lia|].
        apply Z.div_lt_upper_bound; lia. }
      assert (0 <= z mod 10 < 10) as Hr by (apply Z.mod_pos_bound; lia).
      destruct (IH _ Hq) as [Hv Hf].
      rewrite dec_go_app. split.
      * unfold decValue in *. rewrite fold_left_app, Hv. simpl.
        rewrite Z2N.id by lia. rewrite (Z.div_mod z 10) at 3 by lia. lia.
      * rewrite forallb_app, Hf. simpl. rewrite andb_true_r.
        unfold isDigit. apply andb_true_intro. split; apply N.leb_le; lia.
Qed.

(** The decimal rendering denotes the number, for every non-negative
    integer: the iteration count of [dec_go] is never exhausted. *)
Lemma dec_of_nonneg_spec (z : Z) :
  0 <= z ->
  decValue (dec_of_nonneg z) = z
  /\ forallb isDigit (dec_of_nonneg z) = true.
Proof.
  intros Hz. unfold dec_of_nonneg.
  destruct (Z.leb_spec z 0) as [Hle | Hpos].
  - assert (z = 0) as -> by lia. split; reflexivity.
  - destruct (Z.log2_spec z Hpos) as [_ Hlt].
    assert (0 <= Z.log2 z) as Hl by apply Z.log2_nonneg.
    apply dec_go_spec. split; [lia|].
    rewrite Nat2Z.inj_succ, Z2Nat.id by lia.
    eapply Z.lt_le_trans; [exact Hlt|].
    apply Z.pow_le_mono_l. lia.
Qed.

(** ** Worked values *)

Example parseInt_values :
  parseInt (lit "16777215") = IInt 16777215
  /\ parseInt (lit "  42abc") = IInt 42
  /\ parseInt (lit "-0x1F") = IInt (-31)
  /\ parseInt (lit "07") = IInt 7
  /\ parseInt [] = INaN
  /\ parseInt (lit "OVA") = INaN
  /\ parseInt (lit "0x") = INaN
  /\ parseInt (ToString None) = INaN
  /\ parseInt (lit "9007199254740993") = IInt 9007199254740992.
Proof. vm_compute. repeat split. Qed.

Example parseFloat_values :
  parseFloat (lit "224.00") = Fin 224
  /\ parseFloat (lit "1.5") = Fin (3 # 2)
  /\ parseFloat (lit ".5e1x") = Fin 5
  /\ parseFloat (lit "0.1") = Fin (3602879701896397 # 36028797018963968)
  /\ parseFloat (lit "1e-400") = Fin 0
  /\ parseFloat (lit "-Infinity") = Inf true
  /\ parseFloat [] = NaN
  /\ parseFloat (lit ".") = NaN
  /\ parseFloat (lit "abc") = NaN
  /\ parseFloat (ToString None) = NaN.
Proof. vm_compute. repeat split. Qed.

Example render_values :
  toUpperCase (padStart 6 48 (toString16 (IInt 16777215))) = lit "FFFFFF"
  /\ toUpperCase (padStart 6 48 (toString16 (IInt 255))) = lit "0000FF"
  /\ toUpperCase (padStart 6 48 (toString16 (IInt 0))) = lit "000000"
  /\ toUpperCase (padStart 6 48 (toString16 (IInt 16777216))) = lit "1000000"
  /\ decimal 503 = lit "503".
Proof. vm_compute. repeat split. Qed.

(** A missing token is read as [undefined], which is not a number. *)
Lemma missing_is_non_numeric :
  non_numeric_int None = true /\ non_numeric_float None = true.
Proof. split; reflexivity. Qed.

End JsFacts.

(* ===================================================================== *)
(** * Properties of the comment normaliser *)
(* ===================================================================== *)

Module NormaliserFacts.
Import JS Danmaku Spec JsFacts.

(** The three outputs, each in terms of its own field. *)
Lemma item_time (c : RawComment.T) :
  DanmakuItem.time (convertToDanmakuItem c)
  = num_or (timeField c) (RawComment.t c).
Proof. reflexivity. Qed.

Lemma item_mode (c : RawComment.T) :
  DanmakuItem.mode (convertToDanmakuItem c)
  = let modeFromP := int_or (modeField c) (IInt 1) in
    if int_seq modeFromP (IInt 5) then 1
    else if int_seq modeFromP (IInt 4) then 2 else 0.
Proof. reflexivity. Qed.

Lemma item_color (c : RawComment.T) :
  DanmakuItem.color (convertToDanmakuItem c)
  = lit "#"
    ++ toUpperCase
         (padStart 6 48 (toString16 (int_or (colorField c) (IInt 16777215)))).
Proof. reflexivity. Qed.

Lemma padStart_length (n : nat) (fill : N) (s : jsstring) :
  (n <= length (padStart n fill s))%nat.
Proof. unfold padStart. rewrite length_app, repeat_length. lia. Qed.

(** The example of the source's comment, and the mode mapping. *)
Example convert_renren :
  convertToDanmakuItem (raw "224.00,1,16777215,[renren]" (Fin 224))
  = {| DanmakuItem.text := lit "hello"; DanmakuItem.time := Fin 224;
       DanmakuItem.color := lit "#FFFFFF"; DanmakuItem.mode := 0 |}.
Proof. vm_compute. reflexivity. Qed.

Example convert_modes :
  DanmakuItem.mode (convertToDanmakuItem (raw "1,5,255" (Fin 1))) = 1
  /\ DanmakuItem.mode (convertToDanmakuItem (raw "1,4,255" (Fin 1))) = 2
  /\ DanmakuItem.mode (convertToDanmakuItem (raw "1,1,255" (Fin 1))) = 0
  /\ DanmakuItem.mode (convertToDanmakuItem (raw "1,9,255" (Fin 1))) = 0
  /\ DanmakuItem.color (convertToDanmakuItem (raw "1,5,255" (Fin 1)))
     = lit "#0000FF".
Proof. vm_compute. repeat split. Qed.

(** C10. A packed field that parses to zero is treated like one that does
    not parse: a zero time gives the record's [t], a zero mode code gives
    scroll (through the default 1), a zero colour code gives white
    (through the default 16777215) and not black. *)
Theorem zero_fields_fall_back (comment : RawComment.T) :
  let item := convertToDanmakuItem comment in
  (is_zero (timeField comment) = true ->
   DanmakuItem.time item = RawComment.t comment)
  /\ (modeField comment = IInt 0 ->
      int_or (modeField comment) (IInt 1) = IInt 1
      /\ DanmakuItem.mode item = 0)
  /\ (colorField comment = IInt 0 ->
      int_or (colorField comment) (IInt 16777215) = IInt 16777215
      /\ DanmakuItem.color item = lit "#FFFFFF").
Proof.
  intros item. subst item. split; [|split].
  - rewrite item_time. unfold num_or, num_truthy, is_zero.
    destruct (timeField comment) as [|b|q]; try discriminate.
    now intros ->.
  - rewrite item_mode. now intros ->.
  - rewrite item_color. now intros ->.
Qed.

Lemma zero_fields_fall_back_witness :
  DanmakuItem.time (convertToDanmakuItem (raw "0.0,0,0,[src]" (Fin 33)))
  = Fin 33
  /\ DanmakuItem.mode (convertToDanmakuItem (raw "0.0,0,0,[src]" (Fin 33)))
     = 0
  /\ DanmakuItem.color (convertToDanmakuItem (raw "0.0,0,0,[src]" (Fin 33)))
     = lit "#FFFFFF".
Proof.
  pose proof (zero_fields_fall_back (raw "0.0,0,0,[src]" (Fin 33)))
    as [H1 [H2 H3]].
  split; [|split].
  - apply H1. reflexivity.
  - apply H2. reflexivity.
  - apply H3. reflexivity.
Defined.

(** C3 at the input where the code departs from it: a comment whose
    colour code is 0 (black) is given the colour [#FFFFFF], while the
    rendering step on its own would give [#000000]. *)
Theorem black_comment_rendered_white :
  colorField (raw "12.5,1,0,[src]" (Fin 12)) = IInt 0
  /\ DanmakuItem.color (convertToDanmakuItem (raw "12.5,1,0,[src]" (Fin 12)))
     = lit "#FFFFFF"
  /\ DanmakuItem.color (convertToDanmakuItem (raw "12.5,1,0,[src]" (Fin 12)))
     <> lit "#000000"
  /\ lit "#" ++ toUpperCase (padStart 6 48 (toString16 (IInt 0)))
     = lit "#000000"
  /\ DanmakuItem.color
       (convertToDanmakuItem (raw "12.5,1,16777215,[src]" (Fin 12)))
     = lit "#FFFFFF".
Proof. repeat split; try reflexivity. discriminate. Qed.

(** The part of C3 that holds: every colour code that parses to a
    non-zero integer is rendered as written, and within the RGB range the
    result is [#] and six upper-case base-16 digits denoting the code. *)
Lemma nonzero_color_rendered (comment : RawComment.T) (c : Z) :
  colorField comment = IInt c -> c <> 0 ->
  DanmakuItem.color (convertToDanmakuItem comment)
  = lit "#" ++ toUpperCase (padStart 6 48 (toString16 (IInt c)))
  /\ (0 < c <= 16777215 ->
      exists ds, DanmakuItem.color (convertToDanmakuItem comment) = 35%N :: ds
                 /\ length ds = 6%nat /\ forallb isUpperHex ds = true
                 /\ hexValue ds = c).
Proof.
  intros Hc Hne. rewrite item_color, Hc. unfold int_or, int_truthy.
  destruct (Z.eqb_spec c 0) as [?|_]; [contradiction|]. simpl negb.
  split; [reflexivity|]. intros Hr.
  destruct (render_hex6 c) as [Hl [Hf Hv]]; [lia|].
  eexists. split; [reflexivity|]. auto.
Qed.

(** C5, as stated, fails: the item is not well formed for every record.
    A negative colour code and a code above 16777215 are rendered as they
    are, which gives strings that are not colours of the form [#RRGGBB]. *)
Lemma out_of_range_color_ill_formed :
  DanmakuItem.color (convertToDanmakuItem (raw "1,1,-255" (Fin 1)))
  = lit "#000-FF"
  /\ hex_color
       (DanmakuItem.color (convertToDanmakuItem (raw "1,1,-255" (Fin 1))))
     = false
  /\ DanmakuItem.color (convertToDanmakuItem (raw "1,1,16777216" (Fin 1)))
     = lit "#1000000"
  /\ hex_color
       (DanmakuItem.color (convertToDanmakuItem (raw "1,1,16777216" (Fin 1))))
     = false
  /\ DanmakuItem.color (convertToDanmakuItem (raw "1,1,99999999" (Fin 1)))
     = lit "#5F5E0FF".
Proof. vm_compute. repeat split. Qed.

(** C5, amended.  The normaliser is total and every field is read on its
    own.  For every raw comment it returns an item with the comment's
    text, a mode among 0, 1, 2 and a colour made of [#] and at least six
    characters.  A time token that is missing or not numeric gives the
    record's [t]; a mode token that is missing or not numeric gives
    scroll; a colour token that is missing or not numeric gives
    [#FFFFFF]; the same holds whenever the parse is NaN.  A field that
    parses is honoured whatever the other fields are: a non-zero time is
    the item's time, mode code 5 gives top, 4 gives bottom and any other
    code scroll, a non-zero colour code is rendered in upper-case base 16,
    padded to six digits.  Each output is determined by its own token (and
    [t] for the time).  The colour is of the form [#RRGGBB] exactly when
    the colour token does not parse or parses within the RGB range: a
    negative code, a code above 16777215 and an infinite one give a colour
    that is not of that form. *)
Theorem normalize_fields_honoured (comment : RawComment.T) :
  let parts := split comma (RawComment.p comment) in
  let item := convertToDanmakuItem comment in
  DanmakuItem.text item = RawComment.m comment
  /\ (DanmakuItem.mode item = 0 \/ DanmakuItem.mode item = 1
      \/ DanmakuItem.mode item = 2)
  /\ (exists body, DanmakuItem.color item = 35%N :: body
                   /\ (6 <= length body)%nat)
  /\ (non_numeric_float (nth_error parts 0) = true \/ timeField comment = NaN
      -> DanmakuItem.time item = RawComment.t comment)
  /\ (non_numeric_int (nth_error parts 1) = true \/ modeField comment = INaN
      -> DanmakuItem.mode item = 0)
  /\ (non_numeric_int (nth_error parts 2) = true \/ colorField comment = INaN
      -> DanmakuItem.color item = lit "#FFFFFF")
  /\ (colorField comment = INaN
      \/ (exists c, colorField comment = IInt c /\ 0 <= c <= 16777215)
      -> hex_color (DanmakuItem.color item) = true)
  /\ (forall other : RawComment.T,
      (timeField other = timeField comment ->
       RawComment.t other = RawComment.t comment ->
       DanmakuItem.time (convertToDanmakuItem other) = DanmakuItem.time item)
      /\ (modeField other = modeField comment ->
          DanmakuItem.mode (convertToDanmakuItem other)
          = DanmakuItem.mode item)
      /\ (colorField other = colorField comment ->
          DanmakuItem.color (convertToDanmakuItem other)
          = DanmakuItem.color item))
  /\ (num_truthy (timeField comment) = true ->
      DanmakuItem.time item = timeField comment)
  /\ (modeField comment = IInt 5 -> DanmakuItem.mode item = 1)
  /\ (modeField comment = IInt 4 -> DanmakuItem.mode item = 2)
  /\ (forall n, modeField comment = IInt n -> n <> 5 -> n <> 4 ->
      DanmakuItem.mode item = 0)
  /\ (forall c, colorField comment = IInt c -> c <> 0 ->
      DanmakuItem.color item
      = lit "#" ++ toUpperCase (padStart 6 48 (toString16 (IInt c))))
  /\ (forall c, colorField comment = IInt c -> 0 < c <= 16777215 ->
      exists ds, DanmakuItem.color item = 35%N :: ds
                 /\ length ds = 6%nat /\ forallb isUpperHex ds = true
                 /\ hexValue ds = c)
  /\ (forall c, colorField comment = IInt c -> c < 0 \/ 16777215 < c ->
      hex_color (DanmakuItem.color item) = false)
  /\ (forall b, colorField comment = IInf b ->
      hex_color (DanmakuItem.color item) = false).
Proof.
  intros parts item. subst parts item.
  assert (forall P : Prop,
            (non_numeric_float
               (nth_error (split comma (RawComment.p comment)) 0) = true
             \/ timeField comment = NaN) -> (timeField comment = NaN -> P)
            -> P) as Ht.
  { intros P [H | H] HP; apply HP; [|exact H].
    now apply parseFloat_non_numeric. }
  assert (forall P : Prop,
            (non_numeric_int
               (nth_error (split comma (RawComment.p comment)) 1) = true
             \/ modeField comment = INaN) -> (modeField comment = INaN -> P)
            -> P) as Hm.
  { intros P [H | H] HP; apply HP; [|exact H].
    now apply parseInt_non_numeric. }
  assert (forall P : Prop,
            (non_numeric_int
               (nth_error (split comma (RawComment.p comment)) 2) = true
             \/ colorField comment = INaN) -> (colorField comment = INaN -> P)
            -> P) as Hc.
  { intros P [H | H] HP; apply HP; [|exact H].
    now apply parseInt_non_numeric. }
  assert (forall c, c <> 0 ->
            int_or (IInt c) (IInt 16777215) = IInt c) as Hor.
  { intros c Hne. unfold int_or, int_truthy.
    now destruct (Z.eqb_spec c 0). }
  split; [reflexivity|]. split.
  { rewrite item_mode. cbv zeta.
    destruct (int_seq _ (IInt 5)); [auto|].
    destruct (int_seq _ (IInt 4)); auto. }
  split.
  { rewrite item_color. eexists. split; [reflexivity|].
    unfold toUpperCase. rewrite length_map. apply padStart_length. }
  split.
  { intros H. apply (Ht _ H). intros E. now rewrite item_time, E. }
  split.
  { intros H. apply (Hm _ H). intros E. now rewrite item_mode, E. }
  split.
  { intros H. apply (Hc _ H). intros E. now rewrite item_color, E. }
  split.
  { rewrite item_color. intros [E | [c [E Hr]]]; rewrite E.
    - reflexivity.
    - unfold int_or, int_truthy.
      destruct (Z.eqb_spec c 0) as [-> | Hne]; [reflexivity|]. simpl negb.
      destruct (render_hex6 c Hr) as [Hl [Hf _]].
      change (hex_color
                (35%N :: toUpperCase (padStart 6 48 (toString16 (IInt c))))
              = true).
      unfold hex_color. rewrite Hl, Hf. reflexivity. }
  split.
  { intros other. rewrite !item_time, !item_mode, !item_color.
    split; [|split]; intros E; try intros E'; now rewrite E, ?E'. }
  split.
  { intros H. rewrite item_time. unfold num_or. now rewrite H. }
  split.
  { intros E. rewrite item_mode, E. reflexivity. }
  split.
  { intros E. rewrite item_mode, E. reflexivity. }
  split.
  { intros n E H5 H4. rewrite item_mode, E. cbv zeta.
    unfold int_or, int_truthy.
    destruct (Z.eqb_spec n 0) as [-> | Hne]; [reflexivity|].
    cbn [negb int_seq].
    destruct (Z.eqb_spec n 5) as [?|_]; [contradiction|].
    destruct (Z.eqb_spec n 4) as [?|_]; [contradiction|]. reflexivity. }
  split.
  { intros c E Hne. now rewrite item_color, E, Hor. }
  split.
  { intros c E Hr. rewrite item_color, E, Hor by lia.
    destruct (render_hex6 c) as [Hl [Hf Hv]]; [lia|].
    eexists. split; [reflexivity|]. auto. }
  split.
  { intros c E Hr. rewrite item_color, E, Hor by lia.
    change (hex_color
              (35%N :: toUpperCase (padStart 6 48 (toString16 (IInt c))))
            = false).
    unfold hex_color. destruct Hr as [Hneg | Hbig].
    - rewrite (render_hex_negative c Hneg). apply andb_false_r.
    - pose proof (render_hex_wide c Hbig) as Hw.
      destruct (Nat.eqb_spec
                  (length
                     (toUpperCase (padStart 6 48 (toString16 (IInt c)))))
                  6) as [Heq | _]; [lia|].
      now rewrite andb_false_r. }
  intros b E. rewrite item_color, E. now destruct b.
Qed.

Lemma normalize_fields_honoured_witness :
  DanmakuItem.time (convertToDanmakuItem (raw "abc,,zz" (Fin 7))) = Fin 7
  /\ DanmakuItem.mode (convertToDanmakuItem (raw "abc,,zz" (Fin 7))) = 0
  /\ DanmakuItem.color (convertToDanmakuItem (raw "abc,,zz" (Fin 7)))
     = lit "#FFFFFF"
  /\ DanmakuItem.mode (convertToDanmakuItem (raw "12.5" (Fin 7))) = 0
  /\ DanmakuItem.color (convertToDanmakuItem (raw "x,5" (Fin 7)))
     = lit "#FFFFFF"
  /\ DanmakuItem.mode (convertToDanmakuItem (raw "x,5" (Fin 7))) = 1
  /\ DanmakuItem.time (convertToDanmakuItem (raw "12.5,zz,-1" (Fin 7)))
     = timeField (raw "12.5,zz,-1" (Fin 7))
  /\ hex_color
       (DanmakuItem.color (convertToDanmakuItem (raw "1,1,255" (Fin 7))))
     = true
  /\ hex_color
       (DanmakuItem.color (convertToDanmakuItem (raw "1,1,-255" (Fin 7))))
     = false.
Proof.
  pose proof (normalize_fields_honoured (raw "abc,,zz" (Fin 7)))
    as [_ [_ [_ [H4 [H5 [H6 _]]]]]].
  pose proof (normalize_fields_honoured (raw "12.5" (Fin 7)))
    as [_ [_ [_ [_ [M5 _]]]]].
  pose proof (normalize_fields_honoured (raw "x,5" (Fin 7)))
    as [_ [_ [_ [_ [_ [C6 [_ [_ [_ [T5 _]]]]]]]]]].
  pose proof (normalize_fields_honoured (raw "12.5,zz,-1" (Fin 7)))
    as [_ [_ [_ [_ [_ [_ [_ [_ [T9 _]]]]]]]]].
  pose proof (normalize_fields_honoured (raw "1,1,255" (Fin 7)))
    as [_ [_ [_ [_ [_ [_ [X7 _]]]]]]].
  pose proof (normalize_fields_honoured (raw "1,1,-255" (Fin 7)))
    as [_ [_ [_ [_ [_ [_ [_ [_ [_ [_ [_ [_ [_ [_ [N15 _]]]]]]]]]]]]]]].
  split; [|split; [|split; [|split; [|split; [|split; [|split; [|split]]]]]]].
  - apply H4. left; vm_compute; reflexivity.
  - apply H5. left; vm_compute; reflexivity.
  - apply H6. left; vm_compute; reflexivity.
  - apply M5. left; vm_compute; reflexivity.
  - apply C6. left; vm_compute; reflexivity.
  - apply T5. vm_compute; reflexivity.
  - apply T9. vm_compute; reflexivity.
  - apply X7. right. exists 255. split; [vm_compute; reflexivity | lia].
  - apply (N15 (-255)); [vm_compute; reflexivity | lia].
Defined.

End NormaliserFacts.

(* ===================================================================== *)
(** * Properties of the auto-load chain *)
(* ===================================================================== *)

Module AutoLoadFacts.
Import JS Danmaku Spec JsFacts.

(** ** The keyword and the catalog of the source *)

Example extractSearchKeyword_values :
  extractSearchKeyword (lit "Attack on Titan S01E05.1080p.HEVC.mkv")
  = lit "Attack on Titan"
  /\ extractSearchKeyword (lit "进击的巨人 S01E05") = lit "进击的巨人"
  /\ extractSearchKeyword (lit "进击的巨人 第3集 (2013) [H.264] 4k.MP4")
     = lit "进击的巨人"
  /\ extractSearchKeyword [] = []
  /\ extractSearchKeyword (lit "S01E05.mkv") = [].
Proof. vm_compute. repeat split. Qed.

Example episodeToken_values :
  episodeToken (lit "Show E07") = Some (IInt 7)
  /\ episodeToken (lit "Show ep12 720p") = Some (IInt 12)
  /\ episodeToken (lit "某番 第3话") = Some (IInt 3)
  /\ episodeToken (lit "Show S02E03") = Some (IInt 3)
  /\ episodeToken (lit "Show 2019") = None.
Proof. vm_compute. repeat split. Qed.

(** The four functions of the source absorb every failure: the catalog
    built from them never rejects a request. *)
Lemma client_never_rejects (remote : Remote) (rq : Request) :
  rejects (client remote) rq = false.
Proof. destruct rq; reflexivity. Qed.

(** ** The requests of one run *)






(** ** The messages *)









(** ** The catalog functions of the source absorb failures *)


Lemma failed_searchAnime (remote : Remote) (keyword : jsstring) :
  io_failed remote (ReqSearch keyword) = true ->
  searchAnime remote keyword = [].
Proof.
  unfold searchAnime, io_failed, failed.
  destruct (negb (str_truthy keyword) || streq (trim keyword) []);
    [reflexivity|].
  destruct (encodeURIComponent keyword); [|reflexivity].
  destruct (get_search remote keyword) as [|[|] st [data|]];
    (reflexivity || discriminate).
Qed.

Lemma failed_getBangumi (remote : Remote) (animeId : Z) :
  failed (get_bangumi remote animeId) = true ->
  getBangumi remote animeId = None.
Proof.
  unfold getBangumi, failed.
  destruct (get_bangumi remote animeId) as [|[|] st [data|]];
    (reflexivity || discriminate).
Qed.



(** The catch clause is live code: a catalog whose comment call rejects
    (which [client] never does) ends in the "auto-load failed" result. *)
Example catch_converts_rejection :
  autoLoadDanmaku failing_at_match title_e07 []
  = (Ret (failure msg_failed), [ReqMatch title_e07])
  /\ autoLoadDanmaku failing_at_comments title_e07 []
     = (Ret (failure msg_failed),
        [ReqMatch title_e07; ReqSearch (lit "Attack on Titan");
         ReqBangumi 42; ReqComments 1007]).
Proof. split; vm_compute; reflexivity. Qed.





(** ** The target episode *)

Lemma find_first {A} (f : A -> bool) (pre : list A) (x : A) (post : list A) :
  f x = true -> forallb (fun a => negb (f a)) pre = true ->
  find f (pre ++ x :: post) = Some x.
Proof.
  intros Hx. induction pre as [|a pre IH]; simpl; intros Hp.
  - now rewrite Hx.
  - apply andb_prop in Hp as [Ha Hp]. apply negb_true_iff in Ha.
    rewrite Ha. now apply IH.
Qed.

Lemma find_none {A} (f : A -> bool) (l : list A) :
  forallb (fun a => negb (f a)) l = true -> find f l = None.
Proof.
  induction l as [|a l IH]; simpl; intros Hl; [reflexivity|].
  apply andb_prop in Hl as [Ha Hl]. apply negb_true_iff in Ha.
  rewrite Ha. now apply IH.
Qed.

Lemma find_some_exists {A} (f : A -> bool) (l : list A) (x : A) :
  In x l -> f x = true -> exists y, find f l = Some y.
Proof.
  induction l as [|a l IH]; simpl; intros Hin Hx; [contradiction|].
  destruct (f a) eqn:Ea; [eauto|].
  destruct Hin as [-> | Hin]; [congruence | now apply IH].
Qed.

(** [selectEpisode] in terms of the episode token. *)
Lemma selectEpisode_token (videoTitle : jsstring) (first : Episode.T)
  (episodes : list Episode.T) :
  selectEpisode videoTitle first episodes
  = match episodeToken videoTitle with
    | Some n =>
      match find (numbered n) episodes with
      | Some found => found
      | None => first
      end
    | None => first
    end.
Proof.
  unfold selectEpisode, episodeToken.
  destruct (episodeMatch videoTitle); reflexivity.
Qed.

(** C4. On the search path of [autoLoadDanmaku] (no usable automatic
    match, a non-empty keyword, a search hit whose detail has episodes),
    the comments are fetched for the target episode, and on success the
    result carries that episode's title.  The target is chosen as follows:
    the token is the number captured by [(E|EP|第)<digits>(集|话)?] if that
    pattern matches, else by [S<digits>E<digits>]; if some episode's
    [episodeNumber] parses to the token, the target is such an episode,
    namely the first one in the list; if none does, or if there is no
    token, the target is the first episode of the list. *)
Theorem search_fallback_selects_episode (catalog : Catalog)
  (videoTitle : jsstring) (log : list Request)
  (matchResult : option MatchResponse.T) (anime0 : Anime.T)
  (animes : list Anime.T) (b : Bangumi.T) (episode0 : Episode.T)
  (rest : list Episode.T) :
  blank videoTitle = false ->
  cat_matchAnime catalog videoTitle = Ret matchResult ->
  usableMatch matchResult = None ->
  str_truthy (extractSearchKeyword videoTitle) = true ->
  cat_searchAnime catalog (extractSearchKeyword videoTitle)
  = Ret (anime0 :: animes) ->
  cat_getBangumi catalog (Anime.animeId anime0) = Ret (Some b) ->
  Bangumi.episodes b = episode0 :: rest ->
  let target := selectEpisode videoTitle episode0 (Bangumi.episodes b) in
  snd (autoLoadDanmaku catalog videoTitle log)
  = log ++ [ReqMatch videoTitle;
            ReqSearch (extractSearchKeyword videoTitle);
            ReqBangumi (Anime.animeId anime0);
            ReqComments (Episode.episodeId target)]
  /\ (forall c d, cat_getComments catalog (Episode.episodeId target)
                  = Ret (c :: d) ->
      fst (autoLoadDanmaku catalog videoTitle log)
      = Ret {| AutoLoadResult.success := true;
               AutoLoadResult.danmaku := c :: d;
               AutoLoadResult.matchedTitle := Some (Anime.animeTitle anime0);
               AutoLoadResult.episodeTitle :=
                 Some (Episode.episodeTitle target);
               AutoLoadResult.message :=
                 msg_loaded_by_search (length (c :: d)) |})
  /\ episodeToken videoTitle
     = match exec re_episode_token videoTitle with
       | Some c => Some (parseInt (ToString (capture 1 c)))
       | None =>
         option_map (fun c => parseInt (ToString (capture 1 c)))
           (exec re_season_episode videoTitle)
       end
  /\ (forall n ep, episodeToken videoTitle = Some n ->
      In ep (Bangumi.episodes b) -> numbered n ep = true ->
      In target (Bangumi.episodes b) /\ numbered n target = true)
  /\ (forall n pre ep post, episodeToken videoTitle = Some n ->
      Bangumi.episodes b = pre ++ ep :: post -> numbered n ep = true ->
      forallb (fun e => negb (numbered n e)) pre = true -> target = ep)
  /\ (forall n, episodeToken videoTitle = Some n ->
      forallb (fun e => negb (numbered n e)) (Bangumi.episodes b) = true ->
      target = episode0)
  /\ (episodeToken videoTitle = None -> target = episode0).
Proof.
  intros Hb Hm Hu Hk Hs Hg He target.
  assert (autoLoadDanmaku catalog videoTitle log
          = match cat_getComments catalog (Episode.episodeId target) with
            | Ret danmaku =>
              (Ret (if (0 <? length danmaku)%nat then
                      {| AutoLoadResult.success := true;
                         AutoLoadResult.danmaku := danmaku;
                         AutoLoadResult.matchedTitle :=
                           Some (Anime.animeTitle anime0);
                         AutoLoadResult.episodeTitle :=
                           Some (Episode.episodeTitle target);
                         AutoLoadResult.message :=
                           msg_loaded_by_search (length danmaku) |}
                    else failure msg_not_found),
               log ++ [ReqMatch videoTitle;
                       ReqSearch (extractSearchKeyword videoTitle);
                       ReqBangumi (Anime.animeId anime0);
                       ReqComments (Episode.episodeId target)])
            | Throw =>
              (Ret (failure msg_failed),
               log ++ [ReqMatch videoTitle;
                       ReqSearch (extractSearchKeyword videoTitle);
                       ReqBangumi (Anime.animeId anime0);
                       ReqComments (Episode.episodeId target)])
            end) as Erun.
  { unfold autoLoadDanmaku. rewrite trim_blank, Hb, orb_false_r.
    assert (negb (str_truthy videoTitle) = false) as ->.
    { destruct videoTitle; [discriminate Hb | reflexivity]. }
    unfold try_catch, autoLoadBody, searchFallback, bind, await, ret.
    rewrite Hm, Hu, Hk, Hs, Hg. subst target. rewrite He.
    destruct (cat_getComments catalog _) as [danmaku|];
      rewrite <- ?app_assoc; simpl; [|reflexivity].
    destruct (0 <? length danmaku)%nat; reflexivity. }
  split.
  { rewrite Erun. now destruct (cat_getComments catalog _). }
  split.
  { intros c d Hc. rewrite Erun, Hc. reflexivity. }
  split.
  { unfold episodeToken, episodeMatch.
    now destruct (exec re_episode_token videoTitle). }
  subst target. rewrite selectEpisode_token.
  split.
  { intros n ep Hn Hin Hnum. rewrite Hn.
    destruct (find_some_exists _ _ _ Hin Hnum) as [y Hy]. rewrite Hy.
    apply find_some in Hy. exact Hy. }
  split.
  { intros n pre ep post Hn Hl Hnum Hpre. rewrite Hn, Hl.
    now rewrite (find_first _ _ _ _ Hnum Hpre). }
  split.
  { intros n Hn Hall. rewrite Hn. now rewrite (find_none _ _ Hall). }
  intros Hn. now rewrite Hn.
Qed.

Lemma search_fallback_selects_episode_witness :
  episodeToken title_e07 = Some (IInt 7)
  /\ selectEpisode title_e07 (episode 1001 "1") sample_episodes
     = episode 1007 "07"
  /\ snd (autoLoadDanmaku searching_catalog title_e07 [])
     = [ReqMatch title_e07; ReqSearch (lit "Attack on Titan");
        ReqBangumi 42; ReqComments 1007].
Proof.
  pose proof (search_fallback_selects_episode searching_catalog title_e07 []
                None sample_anime [] sample_bangumi (episode 1001 "1")
                (tl sample_episodes)) as H.
  assert (episodeToken title_e07 = Some (IInt 7)) as Ht
    by (vm_compute; reflexivity).
  destruct H as [Hlog [_ [_ [_ [Hsel _]]]]];
    try (vm_compute; reflexivity).
  assert (selectEpisode title_e07 (episode 1001 "1") sample_episodes
          = episode 1007 "07") as Hs.
  { apply (Hsel (IInt 7) [episode 1001 "1"; episode 1002 "SP"]
                (episode 1007 "07") [episode 1077 "7"] Ht);
      vm_compute; reflexivity. }
  split; [exact Ht|]. split; [exact Hs|].
  rewrite Hlog. change (Bangumi.episodes sample_bangumi) with sample_episodes.
  rewrite Hs. vm_compute. reflexivity.
Defined.

End AutoLoadFacts.
